(** * STM32SD: the File / SDClass wrapper over the FatFs driver

    A shallow embedding of [src/SD.cpp] and [src/STM32SD.h].

    The wrapper is stateful C++ over an external driver (FatFs), the C heap
    and a [Print] sink.  It is embedded as computations of a small
    state-and-outcome monad [M] over a [World]:

    - the FatFs primitives ([f_open], [f_opendir], [f_readdir], ...) live
      outside the repository and are the fields of a record [Native]; what
      FatFs documents about them is the predicate [Contract];
    - [malloc]/[free] count the outstanding blocks and take the success of
      each request from a script, so that every allocation may fail;
    - [Error_Handler()] never returns ([Halted]); dereferencing a null
      pointer is [Fault]; a loop that outlives its fuel is [NoFuel].

    Integers are [Z] with the C conversions written out ([wrap8], [wrap32],
    [sint8]); a [char*] is an [option string] ([None] is [nullptr]) whose
    string is the text before the terminating NUL. *)

From Stdlib Require Import ZArith List String Ascii Bool Lia DecimalString.
Import ListNotations.

Local Open Scope string_scope.
Local Open Scope Z_scope.

Set Implicit Arguments.

(* ================================================================== *)
(** ** C integer conversions *)
(* ================================================================== *)

(** conversion to [uint8_t] *)
Definition wrap8 (z : Z) : Z := z mod 256.

(** conversion to [uint32_t] *)
Definition wrap32 (z : Z) : Z := z mod 4294967296.

(** conversion to [int8_t] (two's complement, as gcc defines it) *)
Definition sint8 (z : Z) : Z :=
  let u := z mod 256 in if u <? 128 then u else u - 256.

(** conversion to [int] (32 bits on the STM32 targets) *)
Definition sint32 (z : Z) : Z :=
  let u := z mod 4294967296 in if u <? 2147483648 then u else u - 4294967296.

(** [strlen] *)
Definition strlen (s : string) : Z := Z.of_nat (String.length s).

(* ================================================================== *)
(** ** The FatFs boundary *)
(* ================================================================== *)

(** The driver's result codes (the [FRESULT] enumeration of ff.h). *)
Inductive FRESULT : Type :=
| FR_OK
| FR_DISK_ERR
| FR_INT_ERR
| FR_NOT_READY
| FR_NO_FILE
| FR_NO_PATH
| FR_INVALID_NAME
| FR_DENIED
| FR_EXIST
| FR_INVALID_OBJECT
| FR_WRITE_PROTECTED
| FR_INVALID_DRIVE
| FR_NOT_ENABLED
| FR_NO_FILESYSTEM
| FR_MKFS_ABORTED
| FR_TIMEOUT
| FR_LOCKED
| FR_NOT_ENOUGH_CORE
| FR_TOO_MANY_OPEN_FILES
| FR_INVALID_PARAMETER.

(** [res == FR_OK] *)
Definition is_OK (r : FRESULT) : bool :=
  match r with FR_OK => true | _ => false end.

(** The file object [FIL]: [fil_fs] is the owner pointer ([fs] or [obj.fs]),
    0 when the object is not associated with a volume; [fptr] and [fil_size]
    are what the macros [f_tell] and [f_size] read. *)
Record FIL : Type := mkFIL {
  fil_fs : Z;
  fptr : Z;
  fil_size : Z;
  fil_sclust : Z
}.

(** The directory object [DIR]. *)
Record DIR : Type := mkDIR {
  dir_fs : Z;
  dir_sclust : Z;
  dir_index : Z
}.

(** [DIR _dir = {}] *)
Definition DIR_zero : DIR := mkDIR 0 0 0.

(** [_dir.fs = 0] *)
Definition DIR_clear_fs (d : DIR) : DIR := mkDIR 0 (dir_sclust d) (dir_index d).

(** One directory entry [FILINFO]. *)
Record FILINFO : Type := mkFILINFO {
  fname : string;
  lfname : string;
  fattrib : Z;
  fsize : Z;
  fdate : Z;
  ftime : Z
}.

(** The driver and the constants of its headers.  Objects that the C
    functions fill through an [OUT] pointer are results here. *)
Record Native : Type := mkNative {
  Vol : Type;
  (* constants of ff.h and SdFatFs.h *)
  FA_READ : Z;
  FA_WRITE : Z;
  FA_CREATE_ALWAYS : Z;
  AM_DIR : Z;
  FILE_WRITE : Z;
  sizeof_FIL : Z;
  (* [_USE_LFN && _FATFS != 68300]: the entry carries a separate long name *)
  legacy_lfn : bool;
  (* primitives *)
  f_stat : Vol -> string -> Vol * FRESULT * FILINFO;
  f_open : Vol -> string -> Z -> Vol * FIL * FRESULT;
  f_opendir : Vol -> string -> Vol * DIR * FRESULT;
  f_readdir : Vol -> DIR -> Vol * DIR * FRESULT * FILINFO;
  f_closedir : Vol -> DIR -> Vol * DIR * FRESULT;
  f_sync : Vol -> FIL -> Vol * FIL * FRESULT;
  f_close : Vol -> FIL -> Vol * FIL * FRESULT;
  f_read : Vol -> FIL -> Z -> Vol * FIL * FRESULT * list Z;
  f_lseek : Vol -> FIL -> Z -> Vol * FIL * FRESULT
}.

(** What FatFs documents about the objects it fills: a successful open
    associates the object with the volume, a failed one leaves it
    invalidated; a successful close invalidates the object; a successful
    seek inside the file moves the pointer there. *)
Record Contract (N : Native) : Prop := mkContract {
  open_binds : forall v p m v' fil r,
    f_open N v p m = (v', fil, r) -> (r = FR_OK <-> fil_fs fil <> 0);
  opendir_binds : forall v p v' d r,
    f_opendir N v p = (v', d, r) -> (r = FR_OK <-> dir_fs d <> 0);
  closedir_unbinds : forall v d v' d' r,
    f_closedir N v d = (v', d', r) -> r = FR_OK -> dir_fs d' = 0;
  lseek_moves : forall v fil ofs v' fil',
    f_lseek N v fil ofs = (v', fil', FR_OK) ->
    0 <= ofs <= fil_size fil ->
    fptr fil' = ofs /\ fil_size fil' = fil_size fil
}.

(* ================================================================== *)
(** ** Outcomes and the monad *)
(* ================================================================== *)

Inductive outcome (A : Type) : Type :=
| Done (a : A)     (* the call returned *)
| Halted           (* Error_Handler() was entered *)
| Fault            (* undefined behaviour: a null pointer was used *)
| NoFuel.          (* a loop outlived its fuel *)

Arguments Halted {A}.
Arguments Fault {A}.
Arguments NoFuel {A}.

(** The handle, [class File]. *)
Record File : Type := mkFile {
  _name : option string;
  _fil : option FIL;
  _dir : DIR;
  _res : FRESULT
}.

Definition set_name (f : File) (n : option string) : File :=
  mkFile n (_fil f) (_dir f) (_res f).
Definition set_fil (f : File) (x : option FIL) : File :=
  mkFile (_name f) x (_dir f) (_res f).
Definition set_dir (f : File) (d : DIR) : File :=
  mkFile (_name f) (_fil f) d (_res f).
Definition set_res (f : File) (r : FRESULT) : File :=
  mkFile (_name f) (_fil f) (_dir f) r.

Section Monad.

Variable N : Native.

(** The world a call runs in: the volume behind the driver, the heap
    (blocks outstanding, and the script of answers to the next requests),
    and the text the [Print] sink has received. *)
Record World : Type := mkWorld {
  vol : Vol N;
  heap_live : Z;
  heap_script : list bool;
  sink : string
}.

Definition M (A : Type) : Type := World -> outcome (A * World).

Definition ret {A} (a : A) : M A := fun w => Done (a, w).

Definition bind {A B} (c : M A) (k : A -> M B) : M B :=
  fun w =>
    match c w with
    | Done (a, w') => k a w'
    | Halted => Halted
    | Fault => Fault
    | NoFuel => NoFuel
    end.

Definition Error_Handler {A} : M A := fun _ => Halted.
Definition undefined {A} : M A := fun _ => Fault.
Definition out_of_fuel {A} : M A := fun _ => NoFuel.

End Monad.

Arguments ret {N A} a.
Arguments bind {N A B} c k.
Arguments Error_Handler {N A}.
Arguments undefined {N A}.
Arguments out_of_fuel {N A}.

Declare Scope sd_scope.
Delimit Scope sd_scope with sd.
Notation "x <- c ;; k" := (bind c (fun x => k))
  (at level 61, c at next level, right associativity) : sd_scope.
Notation "' p <- c ;; k" := (bind c (fun x => match x with p => k end))
  (at level 61, p pattern, c at next level, right associativity) : sd_scope.
Notation "c ;; k" := (bind c (fun _ => k))
  (at level 61, right associativity) : sd_scope.
Local Open Scope sd_scope.

(* ================================================================== *)
(** ** States of a handle *)
(* ================================================================== *)

(** the handle owns its path and an open file, and no directory *)
Definition file_bound (f : File) : Prop :=
  _name f <> None /\
  (exists fil, _fil f = Some fil /\ fil_fs fil <> 0) /\
  dir_fs (_dir f) = 0.

(** the handle owns its path and an open directory, and no file object *)
Definition dir_bound (f : File) : Prop :=
  _name f <> None /\ _fil f = None /\ dir_fs (_dir f) <> 0.

(** the handle owns nothing *)
Definition fully_empty (f : File) : Prop :=
  _name f = None /\ _fil f = None /\ dir_fs (_dir f) = 0.

(** the path is bound and neither state is live *)
Definition half_bound (f : File) : Prop :=
  _name f <> None /\
  (forall fil, _fil f = Some fil -> fil_fs fil = 0) /\
  dir_fs (_dir f) = 0.

(** the handle owns no heap block *)
Definition released (f : File) : Prop := _name f = None /\ _fil f = None.

(** the number of heap blocks a handle owns *)
Definition owned (f : File) : Z :=
  (match _name f with Some _ => 1 | None => 0 end) +
  (match _fil f with Some _ => 1 | None => 0 end).

(** The state invariant of the data model: the file state and the directory
    state are never bound together, and the path is unbound exactly when
    both are. *)
Definition handle_inv (f : File) : Prop :=
  ~ (_fil f <> None /\ dir_fs (_dir f) <> 0) /\
  (_name f = None <-> (_fil f = None /\ dir_fs (_dir f) = 0)).

(** the first request of the script is granted *)
Definition grants (s : list bool) : bool :=
  match s with false :: _ => false | _ => true end.

(** the handle [open] returns, from the answers of the driver *)
Definition opened (path : string) (fil : FIL) (r : FRESULT)
           (d : DIR) (r2 : FRESULT) : File :=
  if is_OK r then mkFile (Some path) (Some fil) DIR_zero r
  else if is_OK r2 then mkFile (Some path) None d r2
  else mkFile None None d r2.

(** [c] occurs in [s] *)
Fixpoint has_char (c : ascii) (s : string) : bool :=
  match s with
  | EmptyString => false
  | String a t => Ascii.eqb a c || has_char c t
  end.

(* ================================================================== *)
(** ** The wrapper: SD.cpp *)
(* ================================================================== *)

Section Wrapper.

Variable N : Native.

Local Abbreviation World := (World N).
Local Abbreviation M := (M N).

Definition with_vol (w : World) (v : Vol N) : World :=
  mkWorld N v (heap_live w) (heap_script w) (sink w).

(** *** The heap *)

(** [malloc(size)]: [true] for a block, [false] for [nullptr].  The answer is
    the head of the script; an exhausted script grants every request. *)
Definition malloc (size : Z) : M bool := fun w =>
  match heap_script w with
  | [] => Done (true, mkWorld N (vol w) (heap_live w + 1) [] (sink w))
  | true :: s => Done (true, mkWorld N (vol w) (heap_live w + 1) s (sink w))
  | false :: s => Done (false, mkWorld N (vol w) (heap_live w) s (sink w))
  end.

(** [free(p)] of a block obtained from [malloc] *)
Definition free : M unit := fun w =>
  Done (tt, mkWorld N (vol w) (heap_live w - 1) (heap_script w) (sink w)).

(** *** The sink, [Print* print] *)

Definition print_str (s : string) : M unit := fun w =>
  Done (tt, mkWorld N (vol w) (heap_live w) (heap_script w) (sink w ++ s)).

Definition print_char (c : ascii) : M unit := print_str (String c "").

Definition CRLF : string := String (ascii_of_nat 13) (String (ascii_of_nat 10) "").

Definition println : M unit := print_str CRLF.

Definition println_str (s : string) : M unit := print_str s ;; println.

(** [print->print(n)] for an unsigned number: its decimal digits *)
Definition decimal (n : Z) : string := NilZero.string_of_uint (N.to_uint (Z.to_N n)).

Definition print_num (n : Z) : M unit := print_str (decimal n).

(** *** The driver calls, lifted *)

Definition native_stat (p : string) : M (FRESULT * FILINFO) := fun w =>
  let '(v, r, fno) := f_stat N (vol w) p in Done ((r, fno), with_vol w v).

Definition native_open (p : string) (mode : Z) : M (FRESULT * FIL) := fun w =>
  let '(v, fil, r) := f_open N (vol w) p mode in Done ((r, fil), with_vol w v).

Definition native_opendir (p : string) : M (FRESULT * DIR) := fun w =>
  let '(v, d, r) := f_opendir N (vol w) p in Done ((r, d), with_vol w v).

Definition native_readdir (d : DIR) : M (FRESULT * DIR * FILINFO) := fun w =>
  let '(v, d', r, fno) := f_readdir N (vol w) d in Done ((r, d', fno), with_vol w v).

Definition native_closedir (d : DIR) : M (FRESULT * DIR) := fun w =>
  let '(v, d', r) := f_closedir N (vol w) d in Done ((r, d'), with_vol w v).

Definition native_sync (fil : FIL) : M (FRESULT * FIL) := fun w =>
  let '(v, fil', r) := f_sync N (vol w) fil in Done ((r, fil'), with_vol w v).

Definition native_close (fil : FIL) : M (FRESULT * FIL) := fun w =>
  let '(v, fil', r) := f_close N (vol w) fil in Done ((r, fil'), with_vol w v).

Definition native_read (fil : FIL) (btr : Z) : M (FRESULT * FIL * list Z) := fun w =>
  let '(v, fil', r, bytes) := f_read N (vol w) fil btr in
  Done ((r, fil', bytes), with_vol w v).

Definition native_lseek (fil : FIL) (ofs : Z) : M (FRESULT * FIL) := fun w =>
  let '(v, fil', r) := f_lseek N (vol w) fil ofs in Done ((r, fil'), with_vol w v).

(** *** SDClass and File *)

(** [File::File(FRESULT result)], with the member initialisers of the class *)
Definition File_ (result : FRESULT) : File :=
  mkFile None None DIR_zero result.

(** [SDClass::exists] *)
Definition exists_ (filepath : string) : M bool :=
  '(r, _) <- native_stat filepath ;;
  ret (is_OK r).

(** The mode [SDClass::open] hands to [f_open]:
    [if ((mode == FILE_WRITE) && (!SD.exists(filepath))) mode |= FA_CREATE_ALWAYS] *)
Definition open_mode (filepath : string) (mode : Z) : M Z :=
  if mode =? FILE_WRITE N then
    e <- exists_ filepath ;;
    ret (if negb e then wrap8 (Z.lor mode (FA_CREATE_ALWAYS N)) else mode)
  else ret mode.

(** [SDClass::open].  The file object is a fresh block whose owner pointer
    is cleared before [f_open] fills it; the handle holds it from the native
    open on, and gives it back when that open fails. *)
Definition open (filepath : string) (mode : Z) : M File :=
  let file := File_ FR_OK in
  got_name <- malloc (strlen filepath + 1) ;;
  if negb got_name then Error_Handler else
  let file := set_name file (Some filepath) in
  got_fil <- malloc (sizeof_FIL N) ;;
  if negb got_fil then Error_Handler else
  let file := set_dir file (DIR_clear_fs (_dir file)) in
  mode <- open_mode filepath mode ;;
  '(r, fil) <- native_open filepath mode ;;
  let file := set_res (set_fil file (Some fil)) r in
  if negb (is_OK r) then
    free ;;
    let file := set_fil file None in
    '(r, d) <- native_opendir filepath ;;
    let file := set_res (set_dir file d) r in
    if negb (is_OK r) then
      free ;;
      ret (set_name file None)
    else ret file
  else ret file.

(** [File::close] *)
Definition close (f : File) : M File :=
  match _name f with
  | None => ret f
  | Some _ =>
    f <- match _fil f with
         | Some fil =>
           (if negb (fil_fs fil =? 0) then
              '(_, fil) <- native_sync fil ;;
              '(_, fil) <- native_close fil ;;
              ret tt
            else ret tt) ;;
           free ;;
           ret (set_fil f None)
         | None => ret f
         end ;;
    f <- (if negb (dir_fs (_dir f) =? 0) then
            '(_, d) <- native_closedir (_dir f) ;;
            ret (set_dir f d)
          else ret f) ;;
    free ;;
    ret (set_name f None)
  end.

(** [File::operator bool] *)
Definition operator_bool (f : File) : bool :=
  negb (match _name f with None => true | Some _ => false end
        || (match _fil f with None => true | Some _ => false end
            && (dir_fs (_dir f) =? 0))
        || (match _fil f with
            | Some fil => (fil_fs fil =? 0) && (dir_fs (_dir f) =? 0)
            | None => false
            end)).

(** *** Reading and positioning *)

(** [f_read(_fil, ...)] on a handle: the driver validates the object pointer
    and answers [FR_INVALID_OBJECT] to a null one. *)
Definition read_fil (f : File) (btr : Z) : M (FRESULT * list Z * File) :=
  match _fil f with
  | None => ret (FR_INVALID_OBJECT, [], f)
  | Some fil =>
    '(r, fil', bytes) <- native_read fil btr ;;
    ret (r, bytes, set_fil f (Some fil'))
  end.

(** [File::read()].  [junk] is what the uninitialised local [int8_t data]
    holds before the call; the driver stores the byte it read, if any. *)
Definition read (junk : Z) (f : File) : M (Z * File) :=
  '(r, bytes, f) <- read_fil f 1 ;;
  let data := sint8 (match bytes with b :: _ => b | [] => junk end) in
  if is_OK r then ret (data, f) else ret (-1, f).

(** [File::read(void *buf, size_t len)]: the result and the bytes stored *)
Definition read_buf (f : File) (len : Z) : M (Z * list Z * File) :=
  '(r, bytes, f) <- read_fil f len ;;
  let bytesread := wrap32 (Z.of_nat (List.length bytes)) in
  if is_OK r then ret (sint32 bytesread, bytes, f) else ret (-1, bytes, f).

(** [File::position]: [f_tell] is a macro reading [_fil->fptr] *)
Definition position (f : File) : M Z :=
  match _fil f with
  | None => undefined
  | Some fil => ret (wrap32 (fptr fil))
  end.

(** [File::size]: [f_size] is a macro reading the size field of [*_fil] *)
Definition size (f : File) : M Z :=
  match _fil f with
  | None => undefined
  | Some fil => ret (wrap32 (fil_size fil))
  end.

(** [File::seek] *)
Definition seek (f : File) (pos : Z) : M (bool * File) :=
  sz <- size f ;;
  if pos >? sz then ret (false, f)
  else
    match _fil f with
    | None => ret (false, f)
    | Some fil =>
      '(r, fil') <- native_lseek fil pos ;;
      let f := set_fil f (Some fil') in
      if negb (is_OK r) then ret (false, f) else ret (true, f)
    end.

(** [File::available] *)
Definition available (f : File) : M Z :=
  sz <- size f ;;
  pos <- position f ;;
  let n := wrap32 (sz - pos) in
  ret (sint32 (if n >? 32767 then 32767 else n)).

(** *** Names *)

Definition slash : ascii := "/"%char.
Definition dot : ascii := "."%char.

(** [strrchr(s, c)] for a character [c] other than NUL: the suffix of [s]
    that starts at the last [c], or [None] for the null pointer *)
Fixpoint strrchr (s : string) (c : ascii) : option string :=
  match s with
  | EmptyString => None
  | String a t =>
    match strrchr t c with
    | Some r => Some r
    | None => if Ascii.eqb a c then Some s else None
    end
  end.

(** [File::name]; [None] is the null pointer *)
Definition name (f : File) : M (option string) :=
  match _name f with
  | None => undefined
  | Some s =>
    ret (match strrchr s slash with
         | Some (String a t) => if Ascii.eqb a slash then Some t else Some (String a t)
         | Some EmptyString => Some EmptyString
         | None => None
         end)
  end.

(** [s[0] == 0] *)
Definition starts_nul (s : string) : bool :=
  match s with EmptyString => true | String _ _ => false end.

(** [s[0] == c] for a character [c] other than NUL *)
Definition starts_with (c : ascii) (s : string) : bool :=
  match s with EmptyString => false | String a _ => Ascii.eqb a c end.

(** [s[strlen(s) - 1] == c] for a non-empty [s] *)
Fixpoint ends_with (c : ascii) (s : string) : bool :=
  match s with
  | EmptyString => false
  | String a EmptyString => Ascii.eqb a c
  | String _ t => ends_with c t
  end.

(** the name [fn] the listing uses for an entry *)
Definition entry_name (fno : FILINFO) : string :=
  if legacy_lfn N then
    if starts_nul (lfname fno) then fname fno else lfname fno
  else fname fno.

(** the child path of [File::openNextFile] *)
Definition join_path (dirname fn : string) : string :=
  if (strlen dirname >? 0) && ends_with slash dirname
  then dirname ++ fn
  else dirname ++ String slash fn.

(** [File::openNextFile]: the handle returned, and the iterating handle *)
Fixpoint openNextFile (fuel : nat) (self : File) (mode : Z) : M (File * File) :=
  match fuel with
  | O => out_of_fuel
  | S k =>
    '(res, d, fno) <- native_readdir (_dir self) ;;
    let self := set_dir self d in
    if negb (is_OK res) || starts_nul (fname fno) then ret (File_ res, self)
    else if starts_with dot (fname fno) then openNextFile k self mode
    else
      let fn := entry_name fno in
      match _name self with
      | None => undefined
      | Some nm =>
        got <- malloc (strlen nm + strlen fn + 2) ;;
        if got then
          filtmp <- open (join_path nm fn) mode ;;
          free ;;
          ret (filtmp, self)
        else ret (File_ FR_NOT_ENOUGH_CORE, self)
      end
  end.

(** *** Listing *)

(** flags for [ls()], STM32SD.h *)
Definition LS_DATE : Z := 1.
Definition LS_SIZE : Z := 2.
Definition LS_R : Z := 4.

(** Modelled from the spec: the extractors [FAT_YEAR] ... [FAT_SECOND] are
    declared outside src/; they unpack the raw bit-packed year, month, day,
    hour, minute and second of a FAT date and time field. *)
Definition FAT_YEAR (fatDate : Z) : Z := 1980 + Z.shiftr fatDate 9.
Definition FAT_MONTH (fatDate : Z) : Z := Z.land (Z.shiftr fatDate 5) 15.
Definition FAT_DAY (fatDate : Z) : Z := Z.land fatDate 31.
Definition FAT_HOUR (fatTime : Z) : Z := Z.shiftr fatTime 11.
Definition FAT_MINUTE (fatTime : Z) : Z := Z.land (Z.shiftr fatTime 5) 63.
Definition FAT_SECOND (fatTime : Z) : Z := 2 * Z.land fatTime 31.

Definition char_of (z : Z) : ascii := ascii_of_nat (Z.to_nat (wrap8 z)).

(** [File::printTwoDigits] *)
Definition printTwoDigits (v : Z) : M unit :=
  print_str (String (char_of (48 + v / 10)) (String (char_of (48 + v mod 10)) "")).

(** [File::printFatDate] *)
Definition printFatDate (fatDate : Z) : M unit :=
  print_num (FAT_YEAR fatDate) ;;
  print_char "-" ;;
  printTwoDigits (FAT_MONTH fatDate) ;;
  print_char "-" ;;
  printTwoDigits (FAT_DAY fatDate).

(** [File::printFatTime] *)
Definition printFatTime (fatTime : Z) : M unit :=
  printTwoDigits (FAT_HOUR fatTime) ;;
  print_char ":" ;;
  printTwoDigits (FAT_MINUTE fatTime) ;;
  print_char ":" ;;
  printTwoDigits (FAT_SECOND fatTime).

(** [for (int8_t i = 0; i < indent; i++) print->print(' ');] entered at [i] *)
Fixpoint indent_loop (fuel : nat) (i indent : Z) : M unit :=
  match fuel with
  | O => out_of_fuel
  | S k =>
    if i <? indent then
      print_char " " ;;
      indent_loop k (sint8 (i + 1)) indent
    else ret tt
  end.

(** the lines an entry that is not a directory adds after its name *)
Definition ls_leaf (flags : Z) (fno : FILINFO) : M unit :=
  (if negb (Z.land flags LS_DATE =? 0) then
     print_char " " ;;
     printFatDate (fdate fno) ;;
     print_char " " ;;
     printFatTime (ftime fno)
   else ret tt) ;;
  (if negb (Z.land flags LS_SIZE =? 0) then
     print_char " " ;;
     print_num (fsize fno)
   else ret tt) ;;
  println.

(** The child of one recursion level: [File filtmp = SD.open(fullPath)] and
    the two branches under it.  [rec] is the recursive [ls]; the result is
    [filtmp] as the block leaves it. *)
Definition ls_child (rec : Z -> Z -> File -> M File)
           (flags indent : Z) (fullPath fn : string) : M File :=
  filtmp <- open fullPath (FA_READ N) ;;
  if operator_bool filtmp then
    println ;;
    filtmp <- rec flags (wrap8 (indent + 2)) filtmp ;;
    close filtmp
  else
    println_str fn ;;
    print_str "Error to open dir: " ;;
    println_str fn ;;
    ret filtmp.

(** the body of [if (flags & LS_R)] for a directory entry *)
Definition ls_subdir (rec : Z -> Z -> File -> M File)
           (flags indent : Z) (self : File) (fn : string) : M unit :=
  match _name self with
  | None => undefined
  | Some nm =>
    got <- malloc (strlen nm + 1 + strlen fn + 1) ;;
    if got then
      _ <- ls_child rec flags indent (nm ++ String slash fn) fn ;;
      free
    else
      println ;;
      print_str "Error to allocate memory!"
  end.

(** [File::ls]; the result is the iterating handle *)
Fixpoint ls (fuel : nat) (flags indent : Z) (self : File) : M File :=
  match fuel with
  | O => out_of_fuel
  | S k =>
    '(res, d, fno) <- native_readdir (_dir self) ;;
    let self := set_dir self d in
    if negb (is_OK res) || starts_nul (fname fno) then ret self
    else if starts_with dot (fname fno) then ls k flags indent self
    else
      let fn := entry_name fno in
      indent_loop k 0 indent ;;
      print_str fn ;;
      (if Z.land (fattrib fno) (AM_DIR N) =? 0 then ls_leaf flags fno
       else if negb (Z.land flags LS_R =? 0) then
         ls_subdir (ls k) flags indent self fn
       else ret tt) ;;
      ls k flags indent self
  end.

(** *** Directories and peeking *)

(** [File::isDirectory] *)
Definition isDirectory (f : File) : M bool :=
  match _name f with
  | None => Error_Handler
  | Some nm =>
    if negb (dir_fs (_dir f) =? 0) then ret true
    else
      match _fil f with
      | None => undefined
      | Some fil =>
        if negb (fil_fs fil =? 0) then ret false
        else
          '(r, fno) <- native_stat nm ;;
          if is_OK r then
            if negb (Z.land (fattrib fno) (AM_DIR N) =? 0) then ret true
            else ret false
          else ret false
      end
  end.

(** [File::rewindDirectory]; the result of [f_opendir] is not kept *)
Definition rewindDirectory (f : File) : M File :=
  b <- isDirectory f ;;
  if b then
    f <- (if negb (dir_fs (_dir f) =? 0) then
            '(_, d) <- native_closedir (_dir f) ;;
            ret (set_dir f d)
          else ret f) ;;
    match _name f with
    | None => undefined
    | Some nm =>
      '(_, d) <- native_opendir nm ;;
      ret (set_dir f d)
    end
  else ret f.

(** [File::peek]; [position() - 1] is computed in [uint32_t] *)
Definition peek (junk : Z) (f : File) : M (Z * File) :=
  '(data, f) <- read junk f ;;
  pos <- position f ;;
  '(_, f) <- seek f (wrap32 (pos - 1)) ;;
  ret (data, f).

(** *** Vocabulary of the statements *)

(** the world after a request to [malloc] *)
Definition after_malloc (w : World) : World :=
  mkWorld N (vol w)
          (if grants (heap_script w) then heap_live w + 1 else heap_live w)
          (tl (heap_script w)) (sink w).

(** the world after [free] *)
Definition after_free (w : World) : World :=
  mkWorld N (vol w) (heap_live w - 1) (heap_script w) (sink w).

(** the world after the sink received [s] *)
Definition printed (w : World) (s : string) : World :=
  mkWorld N (vol w) (heap_live w) (heap_script w) (sink w ++ s).

(** the spaces of an indent up to 127 *)
Fixpoint spaces (n : nat) (w : World) : World :=
  match n with
  | O => w
  | S k => spaces k (printed w " ")
  end.

(** a computation that leaves the heap as it found it *)
Definition heap_neutral {A} (c : M A) : Prop :=
  forall (w : World) a w',
    c w = Done (a, w') ->
    heap_live w' = heap_live w /\ heap_script w' = heap_script w.

(** the property of [ls] that its recursion relies on *)
Definition keeps_handle (rec : Z -> Z -> File -> M File) : Prop :=
  forall flags indent self (w : World) self' w',
    rec flags indent self w = Done (self', w') ->
    heap_live w' = heap_live w /\
    _name self' = _name self /\ _fil self' = _fil self.

(** the iterator after [n] entries whose names begin with a dot *)
Fixpoint after_dots (n : nat) (v : Vol N) (d : DIR) : option (Vol N * DIR) :=
  match n with
  | O => Some (v, d)
  | S k =>
    let '(v', d', r, fno) := f_readdir N v d in
    if is_OK r && negb (starts_nul (fname fno)) && starts_with dot (fname fno)
    then after_dots k v' d'
    else None
  end.

(** what [openNextFile] does with the first answer of the iterator that is
    not a dot entry *)
Definition next_entry (self : File) (mode : Z) (r : FRESULT) (fno : FILINFO)
  : M (File * File) :=
  if negb (is_OK r) || starts_nul (fname fno) then ret (File_ r, self)
  else
    match _name self with
    | None => undefined
    | Some nm =>
      got <- malloc (strlen nm + strlen (entry_name fno) + 2) ;;
      if got then
        filtmp <- open (join_path nm (entry_name fno)) mode ;;
        free ;;
        ret (filtmp, self)
      else ret (File_ FR_NOT_ENOUGH_CORE, self)
    end.

(** the part of one pass of the loop of [ls] that follows the entry's name *)
Definition ls_entry (k : nat) (flags indent : Z) (self : File)
           (fno : FILINFO) : M unit :=
  if Z.land (fattrib fno) (AM_DIR N) =? 0 then ls_leaf flags fno
  else if negb (Z.land flags LS_R =? 0) then
    ls_subdir (ls k) flags indent self (entry_name fno)
  else ret tt.

(** the iterator yields the entries [es], none with an empty name *)
Inductive read_run : Vol N -> DIR -> list FILINFO -> Vol N -> DIR -> Prop :=
| run_nil v d : read_run v d [] v d
| run_cons v d e v1 d1 es v' d' :
    f_readdir N v d = (v1, d1, FR_OK, e) ->
    starts_nul (fname e) = false ->
    read_run v1 d1 es v' d' ->
    read_run v d (e :: es) v' d'.

(** [n] spaces *)
Fixpoint spaces_str (n : nat) : string :=
  match n with
  | O => ""
  | S k => String " " (spaces_str k)
  end.

(** the two characters of [printTwoDigits] *)
Definition two_digits (v : Z) : string :=
  String (char_of (48 + v / 10)) (String (char_of (48 + v mod 10)) "").

(** the text of [printFatDate] and of [printFatTime] *)
Definition date_text (fatDate : Z) : string :=
  decimal (FAT_YEAR fatDate) ++ "-" ++ two_digits (FAT_MONTH fatDate)
  ++ "-" ++ two_digits (FAT_DAY fatDate).

Definition time_text (fatTime : Z) : string :=
  two_digits (FAT_HOUR fatTime) ++ ":" ++ two_digits (FAT_MINUTE fatTime)
  ++ ":" ++ two_digits (FAT_SECOND fatTime).

(** what [ls] prints after the name of an entry that is not a directory *)
Definition leaf_text (flags : Z) (fno : FILINFO) : string :=
  (if negb (Z.land flags LS_DATE =? 0)
   then " " ++ date_text (fdate fno) ++ " " ++ time_text (ftime fno)
   else "")
  ++ (if negb (Z.land flags LS_SIZE =? 0)
      then " " ++ decimal (fsize fno) else "")
  ++ CRLF.

(** what a listing without recursion prints for one entry, and for a run *)
Definition entry_text (flags indent : Z) (fno : FILINFO) : string :=
  if starts_with dot (fname fno) then ""
  else
    spaces_str (Z.to_nat indent) ++ entry_name fno
    ++ (if Z.land (fattrib fno) (AM_DIR N) =? 0 then leaf_text flags fno
        else "").

Fixpoint listing_text (flags indent : Z) (es : list FILINFO) : string :=
  match es with
  | [] => ""
  | e :: rest => entry_text flags indent e ++ listing_text flags indent rest
  end.

(** the iterator yields the entries [es] and then its end or an error, which
    leaves it at [d''] on the volume [v''] *)
Definition read_all (v : Vol N) (d : DIR) (es : list FILINFO)
           (v'' : Vol N) (d'' : DIR) : Prop :=
  exists v' d' r fno,
    read_run v d es v' d' /\
    f_readdir N v' d' = (v'', d'', r, fno) /\
    (r <> FR_OK \/ starts_nul (fname fno) = true).

(** entries for which [ls] with [flags] opens nothing: those it skips, those
    that are no directories, and all of them without the recursion flag *)
Definition leaf_run (flags : Z) (es : list FILINFO) : Prop :=
  Forall (fun e => starts_with dot (fname e) = true \/
                   Z.land (fattrib e) (AM_DIR N) = 0 \/
                   Z.land flags LS_R = 0) es.


(** a computation that only prints [s] *)
Definition prints (c : M unit) (s : string) : Prop :=
  forall w : World, c w = Done (tt, printed w s).

End Wrapper.

Arguments malloc {N} size _.
Arguments free {N} _.
Arguments print_str {N} s _.
Arguments print_char {N} c _.
Arguments println {N} _.
Arguments println_str {N} s _.
Arguments print_num {N} n _.
Arguments exists_ {N} filepath _.
Arguments open_mode {N} filepath mode _.
Arguments open {N} filepath mode _.
Arguments close {N} f _.
Arguments read {N} junk f _.
Arguments read_buf {N} f len _.
Arguments position {N} f _.
Arguments size {N} f _.
Arguments seek {N} f pos _.
Arguments available {N} f _.
Arguments name {N} f _.
Arguments openNextFile {N} fuel self mode _.
Arguments indent_loop {N} fuel i indent _.
Arguments ls_leaf {N} flags fno _.
Arguments ls_child {N} rec flags indent fullPath fn _.
Arguments ls_subdir {N} rec flags indent self fn _.
Arguments ls {N} fuel flags indent self _.
Arguments after_dots {N} n v d.
Arguments next_entry {N} self mode r fno _.
Arguments ls_entry {N} k flags indent self fno _.
Arguments heap_neutral {N A} c.
Arguments keeps_handle {N} rec.
Arguments isDirectory {N} f _.
Arguments rewindDirectory {N} f _.
Arguments peek {N} junk f _.
Arguments read_run {N} v d es v' d'.
Arguments prints {N} c s.
Arguments read_all {N} v d es v'' d''.

(* ================================================================== *)
(** ** A driver to run the wrapper on: a volume held in memory *)
(* ================================================================== *)

Module Ram.

Inductive Node : Type :=
| RFile (data : list Z)
| RDir (entries : list FILINFO).

(** The nodes of the volume under their absolute paths, and whether the card
    is in the slot (a driver call on a removed card fails). *)
Record Volume : Type := mkVolume {
  nodes : list (string * Node);
  card_present : bool
}.

Fixpoint find_node (p : string) (ns : list (string * Node)) (i : Z)
  : option (Z * Node) :=
  match ns with
  | [] => None
  | (q, n) :: rest =>
    if String.eqb p q then Some (i, n) else find_node p rest (i + 1)
  end.

Definition node_at (v : Volume) (i : Z) : option Node :=
  if i <? 0 then None
  else option_map snd (nth_error (nodes v) (Z.to_nat i)).

Fixpoint put_node (ns : list (string * Node)) (i : nat) (n : Node)
  : list (string * Node) :=
  match ns, i with
  | [], _ => []
  | (q, _) :: rest, O => (q, n) :: rest
  | x :: rest, S j => x :: put_node rest j n
  end.

Definition FIL_none : FIL := mkFIL 0 0 0 0.
Definition FILINFO_none : FILINFO := mkFILINFO "" "" 0 0 0 0.

Definition basename (p : string) : string :=
  match strrchr p slash with
  | Some (String _ t) => t
  | _ => p
  end.

Definition stat (v : Volume) (p : string) : Volume * FRESULT * FILINFO :=
  if negb (card_present v) then (v, FR_NOT_READY, FILINFO_none)
  else
    match find_node p (nodes v) 0 with
    | Some (_, RFile d) =>
      (v, FR_OK, mkFILINFO (basename p) "" 32 (Z.of_nat (List.length d)) 0 0)
    | Some (_, RDir _) => (v, FR_OK, mkFILINFO (basename p) "" 16 0 0 0)
    | None => (v, FR_NO_FILE, FILINFO_none)
    end.

Definition open (v : Volume) (p : string) (mode : Z) : Volume * FIL * FRESULT :=
  if negb (card_present v) then (v, FIL_none, FR_NOT_READY)
  else
    match find_node p (nodes v) 0 with
    | Some (i, RFile d) =>
      if Z.testbit mode 3
      then (mkVolume (put_node (nodes v) (Z.to_nat i) (RFile [])) true,
            mkFIL 1 0 0 i, FR_OK)
      else (v, mkFIL 1 0 (Z.of_nat (List.length d)) i, FR_OK)
    | Some (_, RDir _) => (v, FIL_none, FR_NO_FILE)
    | None =>
      if Z.testbit mode 3
      then (mkVolume (nodes v ++ [(p, RFile [])]) true,
            mkFIL 1 0 0 (Z.of_nat (List.length (nodes v))), FR_OK)
      else (v, FIL_none, FR_NO_FILE)
    end.

Definition opendir (v : Volume) (p : string) : Volume * DIR * FRESULT :=
  if negb (card_present v) then (v, DIR_zero, FR_NOT_READY)
  else
    match find_node p (nodes v) 0 with
    | Some (i, RDir _) => (v, mkDIR 1 i 0, FR_OK)
    | _ => (v, DIR_zero, FR_NO_PATH)
    end.

Definition readdir (v : Volume) (d : DIR) : Volume * DIR * FRESULT * FILINFO :=
  if negb (card_present v) || (dir_fs d =? 0)
  then (v, d, FR_INVALID_OBJECT, FILINFO_none)
  else
    match node_at v (dir_sclust d) with
    | Some (RDir es) =>
      match nth_error es (Z.to_nat (dir_index d)) with
      | Some e => (v, mkDIR (dir_fs d) (dir_sclust d) (dir_index d + 1), FR_OK, e)
      | None => (v, d, FR_OK, FILINFO_none)
      end
    | _ => (v, d, FR_INT_ERR, FILINFO_none)
    end.

Definition closedir (v : Volume) (d : DIR) : Volume * DIR * FRESULT :=
  if negb (card_present v) || (dir_fs d =? 0)
  then (v, d, FR_INVALID_OBJECT)
  else (v, DIR_clear_fs d, FR_OK).

Definition sync (v : Volume) (fil : FIL) : Volume * FIL * FRESULT :=
  if negb (card_present v) || (fil_fs fil =? 0)
  then (v, fil, FR_INVALID_OBJECT)
  else (v, fil, FR_OK).

Definition close (v : Volume) (fil : FIL) : Volume * FIL * FRESULT :=
  if negb (card_present v) || (fil_fs fil =? 0)
  then (v, fil, FR_INVALID_OBJECT)
  else (v, mkFIL 0 (fptr fil) (fil_size fil) (fil_sclust fil), FR_OK).

Definition read (v : Volume) (fil : FIL) (btr : Z)
  : Volume * FIL * FRESULT * list Z :=
  if negb (card_present v) || (fil_fs fil =? 0)
  then (v, fil, FR_INVALID_OBJECT, [])
  else
    match node_at v (fil_sclust fil) with
    | Some (RFile d) =>
      let bytes := firstn (Z.to_nat btr) (skipn (Z.to_nat (fptr fil)) d) in
      (v, mkFIL (fil_fs fil) (fptr fil + Z.of_nat (List.length bytes))
                (fil_size fil) (fil_sclust fil), FR_OK, bytes)
    | _ => (v, fil, FR_INT_ERR, [])
    end.

Definition lseek (v : Volume) (fil : FIL) (ofs : Z) : Volume * FIL * FRESULT :=
  if negb (card_present v) || (fil_fs fil =? 0)
  then (v, fil, FR_INVALID_OBJECT)
  else (v, mkFIL (fil_fs fil) (if ofs >? fil_size fil then fil_size fil else ofs)
                 (fil_size fil) (fil_sclust fil), FR_OK).

(** The driver, with the values ff.h gives the constants and
    [FILE_WRITE] as [FA_WRITE]. *)
Definition driver : Native :=
  mkNative 1 2 8 16 2 560 false
           stat open opendir readdir closedir sync close read lseek.

Definition world (v : Volume) (script : list bool) : World driver :=
  mkWorld driver v 0 script "".

(** the entries of the listing scenario: [/a], [/a/b], [/a/b/c.txt] *)
Definition entry_b : FILINFO := mkFILINFO "b" "" 16 0 0 0.
Definition entry_c : FILINFO := mkFILINFO "c.txt" "" 32 2 0 0.

Definition volume_abc : Volume :=
  mkVolume [ ("/a", RDir [entry_b]);
             ("/a/b", RDir [entry_c]);
             ("/a/b/c.txt", RFile [104; 105]) ] true.

End Ram.

(** *** The worlds and handles of the examples *)

(** the worlds of the examples: the card in the slot, and the same volume
    after the card was pulled out *)
Definition world_abc : World Ram.driver := Ram.world Ram.volume_abc [].

Definition world_removed : World Ram.driver :=
  Ram.world (Ram.mkVolume (Ram.nodes Ram.volume_abc) false) [].

(** [/a] opened as a directory, and [/a/b/c.txt] opened as a file *)
Definition handle_a : File := mkFile (Some "/a") None (mkDIR 1 0 0) FR_OK.

Definition handle_c : File :=
  mkFile (Some "/a/b/c.txt") (Some (mkFIL 1 0 2 2)) DIR_zero FR_OK.

(** a file that starts with the bytes 255 and 128, open at its start *)
Definition world_bytes : World Ram.driver :=
  Ram.world (Ram.mkVolume [("/f", Ram.RFile [255; 128])] true) [].

Definition handle_f : File :=
  mkFile (Some "/f") (Some (mkFIL 1 0 2 0)) DIR_zero FR_OK.

(** a directory [/d/] whose first three entries begin with a dot *)
Definition entry_of (nm : string) (attrib : Z) : FILINFO :=
  mkFILINFO nm "" attrib 0 0 0.

Definition world_dots : World Ram.driver :=
  Ram.world
    (Ram.mkVolume
       [ ("/d/", Ram.RDir [entry_of "." 16; entry_of ".." 16;
                           entry_of ".hidden" 32; entry_of "x" 32]);
         ("/d/x", Ram.RFile [1; 2; 3]) ] true) [].

Definition handle_d : File := mkFile (Some "/d/") None (mkDIR 1 0 0) FR_OK.

(** a directory [/m] with a hidden entry, two files and a subdirectory *)
Definition world_mixed : World Ram.driver :=
  Ram.world
    (Ram.mkVolume
       [ ("/m", Ram.RDir [entry_of ".x" 32; mkFILINFO "f1" "" 32 7 0 0;
                          entry_of "sub" 16; mkFILINFO "f2" "" 32 12 0 0]);
         ("/m/sub", Ram.RDir []) ] true) [].

Definition handle_m : File := mkFile (Some "/m") None (mkDIR 1 0 0) FR_OK.

(** the volume of [world_dots] after the card was pulled out *)
Definition world_dots_removed : World Ram.driver :=
  Ram.world (Ram.mkVolume (Ram.nodes (vol world_dots)) false) [].

(** an empty file, open *)
Definition world_empty_file : World Ram.driver :=
  Ram.world (Ram.mkVolume [("/e", Ram.RFile [])] true) [].

Definition handle_e : File :=
  mkFile (Some "/e") (Some (mkFIL 1 0 0 0)) DIR_zero FR_OK.





(** the same driver in a build that keeps long file names, and a directory
    [/L] whose one entry has the short name [DOTTED~1] and the long name
    [.dotted long] *)
Definition driver_lfn : Native :=
  mkNative 1 2 8 16 2 560 true
           Ram.stat Ram.open Ram.opendir Ram.readdir Ram.closedir
           Ram.sync Ram.close Ram.read Ram.lseek.

Definition entry_long : FILINFO :=
  mkFILINFO "DOTTED~1" ".dotted long" 32 7 0 0.

Definition world_lfn : World driver_lfn :=
  mkWorld driver_lfn
    (Ram.mkVolume
       [ ("/L", Ram.RDir [entry_long]);
         ("/L/.dotted long", Ram.RFile [1; 2; 3; 4; 5; 6; 7]) ] true)
    0 [] "".

Definition handle_l : File := mkFile (Some "/L") None (mkDIR 1 0 0) FR_OK.

(* ================================================================== *)
(** ** Proofs *)
(* ================================================================== *)

Lemma is_OK_true r : is_OK r = true <-> r = FR_OK.
Proof. destruct r; simpl; split; congruence. Qed.

Lemma is_OK_false r : is_OK r = false <-> r <> FR_OK.
Proof. destruct r; simpl; split; congruence. Qed.

Lemma strrchr_none s c : strrchr s c = None <-> has_char c s = false.
Proof.
  induction s as [|a t IH]; simpl; [tauto|].
  destruct (strrchr t c) as [r|].
  - split; [discriminate|]. intros H. apply orb_false_iff in H.
    destruct H as [_ H]. apply IH in H. discriminate.
  - destruct (Ascii.eqb a c); simpl; split; try discriminate; try tauto;
      intros _; try reflexivity; apply IH; reflexivity.
Qed.

Lemma strrchr_some s c r :
  strrchr s c = Some r ->
  exists pre suf, r = String c suf /\ s = pre ++ r /\ has_char c suf = false.
Proof.
  revert r. induction s as [|a t IH]; simpl; intros r H; [discriminate|].
  destruct (strrchr t c) as [r'|] eqn:E.
  - injection H as <-. destruct (IH r' eq_refl) as (pre & suf & -> & -> & Hs).
    exists (String a pre), suf. auto.
  - destruct (Ascii.eqb a c) eqn:Ea; [|discriminate].
    injection H as <-. apply Ascii.eqb_eq in Ea. subst a.
    exists EmptyString, t. repeat split. apply strrchr_none. exact E.
Qed.

Lemma strrchr_last pre suf c :
  has_char c suf = false ->
  strrchr (pre ++ String c suf) c = Some (String c suf).
Proof.
  intros Hs. induction pre as [|a t IH]; simpl.
  - apply strrchr_none in Hs. rewrite Hs, Ascii.eqb_refl. reflexivity.
  - rewrite IH. reflexivity.
Qed.

Lemma lor_byte a b :
  0 <= a < 256 -> 0 <= b < 256 -> wrap8 (Z.lor a b) = Z.lor a b.
Proof.
  intros Ha Hb. unfold wrap8. change 256 with (2 ^ 8).
  rewrite <- Z.land_ones by lia. rewrite Z.land_lor_distr_l.
  rewrite !Z.land_ones by lia. change (2 ^ 8) with 256.
  rewrite !Z.mod_small by lia. reflexivity.
Qed.

Lemma ends_with_nonempty c s : ends_with c s = true -> strlen s > 0.
Proof.
  destruct s; simpl; [discriminate|]. intros _. unfold strlen. simpl. lia.
Qed.

(** the child path has one separator between the directory and the entry *)
Lemma join_path_eq dirname fn :
  join_path dirname fn =
  if ends_with slash dirname then dirname ++ fn
  else dirname ++ String slash fn.
Proof.
  unfold join_path. destruct (ends_with slash dirname) eqn:E.
  - apply ends_with_nonempty in E.
    assert (G : (strlen dirname >? 0) = true) by (apply Z.gtb_lt; lia).
    rewrite G. reflexivity.
  - rewrite andb_false_r. reflexivity.
Qed.

Section Proofs.

Variable N : Native.

Local Abbreviation World := (World N).

Lemma malloc_eq sz (w : World) :
  malloc sz w = Done (grants (heap_script w), after_malloc w).
Proof.
  unfold malloc, after_malloc, grants.
  destruct (heap_script w) as [|[] s]; reflexivity.
Qed.

(** [open], step by step: two requests to the heap, the mode, the file-open,
    and on its failure the directory-open on the volume it left. *)
Lemma open_steps path mode (w w2 : World) m v3 fil r v4 d r2 :
  grants (heap_script w) = true ->
  grants (tl (heap_script w)) = true ->
  open_mode path mode (after_malloc (after_malloc w)) = Done (m, w2) ->
  f_open N (vol w2) path m = (v3, fil, r) ->
  f_opendir N v3 path = (v4, d, r2) ->
  open path mode w =
  Done (opened path fil r d r2,
        if is_OK r then with_vol w2 v3
        else if is_OK r2 then with_vol (after_free (with_vol w2 v3)) v4
        else after_free (with_vol (after_free (with_vol w2 v3)) v4)).
Proof.
  intros G1 G2 Hm Ho Hd.
  unfold open, bind. rewrite malloc_eq, G1. cbn [negb]. cbv beta iota.
  rewrite malloc_eq. cbn [heap_script after_malloc]. rewrite G2.
  cbn [negb]. cbv beta iota.
  rewrite Hm. unfold native_open. rewrite Ho. unfold opened.
  destruct (is_OK r); cbn [negb]; cbv beta iota; [reflexivity|].
  unfold free, native_opendir. cbn [vol with_vol]. rewrite Hd.
  destruct (is_OK r2); reflexivity.
Qed.

Lemma open_halts path mode (w : World) :
  grants (heap_script w) = false \/ grants (tl (heap_script w)) = false ->
  open path mode w = Halted.
Proof.
  intros H. unfold open, bind. rewrite malloc_eq.
  destruct (grants (heap_script w)) eqn:G1; cbn [negb]; cbv beta iota;
    [|reflexivity].
  rewrite malloc_eq. cbn [heap_script after_malloc].
  destruct H as [H|H]; [discriminate|]. rewrite H. reflexivity.
Qed.

(** [open_mode] always returns, and leaves heap and sink alone *)
Lemma open_mode_returns path mode (w : World) :
  exists m w2, open_mode path mode w = Done (m, w2) /\
               heap_live w2 = heap_live w /\
               heap_script w2 = heap_script w /\ sink w2 = sink w.
Proof.
  unfold open_mode. destruct (mode =? FILE_WRITE N).
  - unfold bind, exists_, bind, native_stat.
    destruct (f_stat N (vol w) path) as [[v r] fno]. simpl.
    eexists _, _. split; [reflexivity|]. simpl. auto.
  - eexists _, _. split; [reflexivity|]. auto.
Qed.

Lemma opened_not_half_bound (HC : Contract N) path v p m v3 fil r v4 d r2 :
  f_open N v p m = (v3, fil, r) ->
  f_opendir N v3 path = (v4, d, r2) ->
  ~ half_bound (opened path fil r d r2).
Proof.
  intros Ho Hd [Hn [Hf Hdir]].
  pose proof (open_binds HC _ _ _ Ho) as Bo.
  pose proof (opendir_binds HC _ _ Hd) as Bd.
  unfold opened in *.
  destruct (is_OK r) eqn:Er.
  - apply is_OK_true in Er. apply Bo in Er. apply Er. apply Hf. reflexivity.
  - destruct (is_OK r2) eqn:Er2; simpl in *.
    + apply is_OK_true in Er2. apply Bd in Er2. contradiction.
    + apply Hn. reflexivity.
Qed.

(** the handle and the answers behind a call of [open] that got its memory *)
Lemma open_granted (HC : Contract N) path mode (w : World) :
  grants (heap_script w) = true -> grants (tl (heap_script w)) = true ->
   exists fil r d r2,
     (exists w', open path mode w = Done (opened path fil r d r2, w') /\
                 heap_live w' = heap_live w + owned (opened path fil r d r2) /\
                 sink w' = sink w /\
                 heap_script w' = tl (tl (heap_script w))) /\
     (r = FR_OK <-> fil_fs fil <> 0) /\ (r2 = FR_OK <-> dir_fs d <> 0).
Proof.
  intros G1 G2.
  destruct (open_mode_returns path mode (after_malloc (after_malloc w)))
    as (m & w2 & Hm & Hlive & Hscript & Hsink).
  destruct (f_open N (vol w2) path m) as [[v3 fil] r] eqn:Ho.
  destruct (f_opendir N v3 path) as [[v4 d] r2] eqn:Hd.
  exists fil, r, d, r2. split; [|split].
  - eexists. split; [exact (open_steps path mode w G1 G2 Hm Ho Hd)|].
    unfold opened, owned, after_malloc in *.
    cbn [heap_live heap_script sink] in *. rewrite G1, G2 in Hlive.
    destruct (is_OK r); [|destruct (is_OK r2)]; cbn;
      rewrite Hlive, Hsink, Hscript; repeat split; lia.
  - exact (open_binds HC _ _ _ Ho).
  - exact (opendir_binds HC _ _ Hd).
Qed.

(** C1. [open] never returns a half-bound handle.  When the heap refuses the
    path buffer or the file object, [Error_Handler] is entered.  Otherwise
    [open] returns: a file-bound handle when the native file-open succeeds
    (two blocks owned); a directory-bound handle when it fails and the
    native directory-open on the same path succeeds (the file object was
    freed, one block owned); a fully empty handle, for which the validity
    test is false, when both fail (both blocks freed). *)
Theorem open_never_half_bound (HC : Contract N) path mode (w : World) :
  ((grants (heap_script w) = false \/ grants (tl (heap_script w)) = false) ->
   open path mode w = Halted) /\
  (grants (heap_script w) = true -> grants (tl (heap_script w)) = true ->
   exists m w2 v3 fil r v4 d r2 f w',
     open_mode path mode (after_malloc (after_malloc w)) = Done (m, w2) /\
     f_open N (vol w2) path m = (v3, fil, r) /\
     f_opendir N v3 path = (v4, d, r2) /\
     open path mode w = Done (f, w') /\
     ~ half_bound f /\
     (r = FR_OK ->
      file_bound f /\ _name f = Some path /\ _fil f = Some fil /\
      heap_live w' = heap_live w + 2) /\
     (r <> FR_OK -> r2 = FR_OK ->
      dir_bound f /\ _name f = Some path /\ _dir f = d /\
      heap_live w' = heap_live w + 1) /\
     (r <> FR_OK -> r2 <> FR_OK ->
      fully_empty f /\ operator_bool f = false /\
      heap_live w' = heap_live w)).
Proof.
  split; [apply open_halts|].
  intros G1 G2.
  destruct (open_mode_returns path mode (after_malloc (after_malloc w)))
    as (m & w2 & Hm & Hlive & _ & _).
  destruct (f_open N (vol w2) path m) as [[v3 fil] r] eqn:Ho.
  destruct (f_opendir N v3 path) as [[v4 d] r2] eqn:Hd.
  pose proof (open_steps path mode w G1 G2 Hm Ho Hd) as Hopen.
  pose proof (open_binds HC _ _ _ Ho) as Bo.
  pose proof (opendir_binds HC _ _ Hd) as Bd.
  assert (L2 : heap_live w2 = heap_live w + 2).
  { rewrite Hlive. unfold after_malloc. cbn [heap_live heap_script].
    rewrite G1, G2. lia. }
  exists m, w2, v3, fil, r, v4, d, r2. eexists _, _.
  split; [exact Hm|]. split; [exact Ho|]. split; [exact Hd|].
  split; [exact Hopen|].
  split; [eapply opened_not_half_bound; eassumption|].
  unfold opened, file_bound, dir_bound, fully_empty, operator_bool.
  split; [|split].
  - intros E. subst r. cbn. repeat split; try discriminate; try lia.
    exists fil. split; [reflexivity|]. apply Bo. reflexivity.
  - intros E1 E2. apply is_OK_false in E1. rewrite E1. subst r2. cbn.
    repeat split; try discriminate; try lia. apply Bd. reflexivity.
  - intros E1 E2. pose proof E2 as E2'.
    apply is_OK_false in E1. apply is_OK_false in E2. rewrite E1, E2. cbn.
    repeat split; try lia.
    destruct (Z.eq_dec (dir_fs d) 0) as [E|E]; [exact E|].
    apply Bd in E. contradiction.
Qed.

(** *** close *)

Lemma close_unbound f (w : World) :
  _name f = None -> close f w = Done (f, w).
Proof. intros E. unfold close. rewrite E. reflexivity. Qed.

(** [close] on a handle without a file object: the directory is closed by
    the driver when its state is live, and the path is freed. *)
Lemma close_dir_steps f (w : World) v d r :
  _name f <> None -> _fil f = None ->
  f_closedir N (vol w) (_dir f) = (v, d, r) ->
  close f w =
  if dir_fs (_dir f) =? 0
  then Done (set_name f None, after_free w)
  else Done (set_name (set_dir f d) None, after_free (with_vol w v)).
Proof.
  intros Hn Hf Hc. unfold close.
  destruct (_name f) as [nm|]; [|congruence].
  rewrite Hf. unfold bind, ret.
  destruct (dir_fs (_dir f) =? 0) eqn:E; cbn [negb]; cbv beta iota.
  - reflexivity.
  - unfold native_closedir. rewrite Hc. reflexivity.
Qed.

(** [close] always returns; a handle that had a path gives up every block it
    owns, and the sink is untouched. *)
Lemma close_returns f (w : World) :
  exists f' w',
    close f w = Done (f', w') /\
    _name f' = None /\
    (_name f <> None -> _fil f' = None) /\
    (_name f <> None -> heap_live w' = heap_live w - owned f) /\
    (dir_fs (_dir f) = 0 -> _dir f' = _dir f) /\
    sink w' = sink w /\ heap_script w' = heap_script w.
Proof.
  unfold close, owned.
  destruct (_name f) as [nm|] eqn:En.
  2:{ exists f, w. repeat split; auto; congruence. }
  unfold bind, ret, free.
  destruct (_fil f) as [fil|] eqn:Ef.
  - destruct (fil_fs fil =? 0); cbn [negb]; cbv beta iota.
    + cbn [set_fil _dir vol heap_live heap_script sink].
      destruct (dir_fs (_dir f) =? 0) eqn:Ed; cbn [negb]; cbv beta iota.
      * eexists _, _. split; [reflexivity|]. cbn.
        repeat split; auto; intros; lia.
      * unfold native_closedir. cbn.
        destruct (f_closedir N (vol w) (_dir f)) as [[v d] r].
        eexists _, _. split; [reflexivity|]. cbn.
        repeat split; auto; intros; try lia;
          try (apply Z.eqb_neq in Ed; contradiction).
    + unfold native_sync, native_close.
      destruct (f_sync N (vol w) fil) as [[v1 fil1] r1]. cbn.
      destruct (f_close N v1 fil1) as [[v2 fil2] r2]. cbn.
      destruct (dir_fs (_dir f) =? 0) eqn:Ed; cbn [negb]; cbv beta iota.
      * eexists _, _. split; [reflexivity|]. cbn.
        repeat split; auto; intros; lia.
      * unfold native_closedir. cbn.
        destruct (f_closedir N v2 (_dir f)) as [[v d] r].
        eexists _, _. split; [reflexivity|]. cbn.
        repeat split; auto; intros; try lia;
          try (apply Z.eqb_neq in Ed; contradiction).
  - destruct (dir_fs (_dir f) =? 0) eqn:Ed; cbn [negb]; cbv beta iota.
    + eexists _, _. split; [reflexivity|]. cbn. rewrite Ef.
      repeat split; auto; intros; lia.
    + unfold native_closedir.
      destruct (f_closedir N (vol w) (_dir f)) as [[v d] r].
      eexists _, _. split; [reflexivity|]. cbn. rewrite Ef.
      repeat split; auto; intros; try lia;
        try (apply Z.eqb_neq in Ed; contradiction).
Qed.

Lemma operator_bool_unbound f : _name f = None -> operator_bool f = false.
Proof. intros E. unfold operator_bool. rewrite E. reflexivity. Qed.

(** C3. [close] never faults and always returns; afterwards the validity
    test is false; a second [close] changes neither the handle nor the
    world; and on a handle that was never opened [close] does nothing. *)
Theorem close_idempotent f (w : World) :
  (exists f1 w1,
     close f w = Done (f1, w1) /\
     operator_bool f1 = false /\
     close f1 w1 = Done (f1, w1)) /\
  (forall result, close (File_ result) w = Done (File_ result, w) /\
                  operator_bool (File_ result) = false).
Proof.
  split.
  - destruct (close_returns f w) as (f1 & w1 & Hc & Hn & _).
    exists f1, w1. split; [exact Hc|]. split.
    + apply operator_bool_unbound, Hn.
    + apply close_unbound, Hn.
  - intros result. split; reflexivity.
Qed.

Lemma File_inv result : handle_inv (File_ result).
Proof. unfold handle_inv. cbn. split; [intros [H _]; congruence|tauto]. Qed.

Lemma open_inv (HC : Contract N) path mode (w : World) f w' :
  open path mode w = Done (f, w') -> handle_inv f.
Proof.
  intros Ho.
  destruct (grants (heap_script w)) eqn:G1.
  2:{ rewrite open_halts in Ho by auto. discriminate. }
  destruct (grants (tl (heap_script w))) eqn:G2.
  2:{ rewrite open_halts in Ho by auto. discriminate. }
  destruct (open_granted HC path mode w G1 G2)
    as (fil & r & d & r2 & (w0 & Hopen & _) & Bo & Bd).
  rewrite Hopen in Ho. injection Ho as <- _.
  unfold handle_inv, opened.
  destruct (is_OK r) eqn:E1; [|destruct (is_OK r2) eqn:E2]; cbn.
  - split; [intros [_ H]; congruence|]. split; [congruence|].
    intros [H _]; congruence.
  - apply is_OK_true, Bd in E2.
    split; [intros [H _]; congruence|]. split; [congruence|].
    intros [_ H]; contradiction.
  - apply is_OK_false in E2.
    assert (dir_fs d = 0).
    { destruct (Z.eq_dec (dir_fs d) 0) as [E|E]; [exact E|].
      apply Bd in E. contradiction. }
    split; [intros [H' _]; congruence|]. tauto.
Qed.

(** C2 (as amended).  Construction and [open] establish the state invariant;
    [close] always unbinds the path and the file state, and keeps the
    invariant on every handle whose directory state is not live; on a
    directory-bound handle the directory state afterwards is what the native
    directory-close left: the invariant holds afterwards exactly when that
    call left the directory object unbound, which it does whenever it
    reports success. *)
Theorem handle_inv_preserved (HC : Contract N) :
  (forall result, handle_inv (File_ result)) /\
  (forall path mode (w : World) f w',
     open path mode w = Done (f, w') -> handle_inv f) /\
  (forall f (w : World),
     handle_inv f ->
     exists f' w',
       close f w = Done (f', w') /\
       _name f' = None /\ _fil f' = None /\
       (dir_fs (_dir f) = 0 -> handle_inv f') /\
       (dir_fs (_dir f) <> 0 ->
        forall v d r,
          f_closedir N (vol w) (_dir f) = (v, d, r) ->
          _dir f' = d /\
          (r = FR_OK -> handle_inv f' /\ dir_fs (_dir f') = 0) /\
          (handle_inv f' <-> dir_fs d = 0))).
Proof.
  split; [exact File_inv|]. split; [intros; eapply open_inv; eassumption|].
  intros f w [Hx Hiff].
  destruct (close_returns f w) as (f' & w' & Hc & Hn & Hf & _ & Hd & _).
  exists f', w'. split; [exact Hc|]. split; [exact Hn|].
  assert (Hf' : _fil f' = None).
  { destruct (_name f) as [nm|] eqn:En.
    - apply Hf. discriminate.
    - rewrite close_unbound in Hc by exact En. injection Hc as <- _.
      apply Hiff. reflexivity. }
  split; [exact Hf'|]. split.
  - intros E. unfold handle_inv. rewrite Hn, Hf', (Hd E), E.
    split; [intros [H _]; congruence|tauto].
  - intros E v d r Hcd.
    assert (Hfil : _fil f = None).
    { destruct (_fil f) as [fil|] eqn:Ef; [|reflexivity].
      exfalso. apply Hx. split; [discriminate|exact E]. }
    assert (Hnm : _name f <> None).
    { intros En. apply Hiff in En. destruct En as [_ En]. contradiction. }
    rewrite (close_dir_steps f w Hnm Hfil Hcd) in Hc.
    apply Z.eqb_neq in E. rewrite E in Hc. injection Hc as <- _.
    cbn. split; [reflexivity|].
    assert (Hz_inv : dir_fs d = 0 ->
              handle_inv (set_name (set_dir f d) None)).
    { intros Hz. unfold handle_inv. cbn. rewrite Hfil, Hz.
      split; [intros [H _]; congruence|tauto]. }
    split.
    + intros Er. pose proof (closedir_unbinds HC _ _ Hcd Er) as Hz.
      split; [exact (Hz_inv Hz)|exact Hz].
    + split; [|exact Hz_inv].
      intros [_ [H _]]. cbn in H. exact (proj2 (H eq_refl)).
Qed.

(** *** seek, read, available *)

(** C4 (as amended).  On an open file handle, [seek(pos)] with [pos] above
    [size()] returns false and changes neither the handle nor the world, so
    [position()] is unchanged; with [pos] up to [size()] it returns true
    exactly when the native seek reports [FR_OK], and then [position()]
    equals [pos]. *)
Theorem seek_within_size (HC : Contract N) f fil pos (w : World) :
  _fil f = Some fil -> 0 <= fil_size fil -> 0 <= pos < 4294967296 ->
  (pos > wrap32 (fil_size fil) -> seek f pos w = Done ((false, f), w)) /\
  (pos <= wrap32 (fil_size fil) ->
   forall v fil' r,
     f_lseek N (vol w) fil pos = (v, fil', r) ->
     seek f pos w = Done ((is_OK r, set_fil f (Some fil')), with_vol w v) /\
     (r = FR_OK ->
      position (set_fil f (Some fil')) (with_vol w v)
      = Done (pos, with_vol w v))).
Proof.
  intros Hf Hsz Hpos. unfold seek, size, bind, ret. rewrite Hf. split.
  - intros Hgt.
    assert (E : (pos >? wrap32 (fil_size fil)) = true)
      by (apply Z.gtb_lt; lia).
    rewrite E. reflexivity.
  - intros Hle v fil' r Hl.
    destruct (pos >? wrap32 (fil_size fil)) eqn:E.
    { apply Z.gtb_lt in E. lia. }
    unfold native_lseek. rewrite Hl. split.
    + destruct (is_OK r); reflexivity.
    + intros ->. unfold position. cbn.
      assert (Hb : wrap32 (fil_size fil) <= fil_size fil).
      { unfold wrap32. apply Z.mod_le; lia. }
      destruct (lseek_moves HC _ _ Hl) as [Hp _]; [lia|].
      rewrite Hp. unfold wrap32. rewrite Z.mod_small by lia. reflexivity.
Qed.

Lemma sint8_byte b : 0 <= b < 256 -> sint8 b = if b <? 128 then b else b - 256.
Proof. intros H. unfold sint8. rewrite Z.mod_small by lia. reflexivity. Qed.

(** C5 (the code at the failing inputs).  When the native read succeeds,
    [read()] returns the byte as an [int8_t] converted to [int]: a byte [b]
    of 128..255 comes back as [b - 256], so the byte 255 comes back as -1;
    and when the read succeeds without a byte (end of file) it returns
    whatever the uninitialised local held. *)
Theorem read_returns_signed_byte junk f fil (w : World) v fil' bytes :
  _fil f = Some fil ->
  f_read N (vol w) fil 1 = (v, fil', FR_OK, bytes) ->
  read junk f w
  = Done ((sint8 (match bytes with b :: _ => b | [] => junk end),
           set_fil f (Some fil')), with_vol w v) /\
  (forall b rest, bytes = b :: rest -> 128 <= b < 256 ->
     read junk f w = Done ((b - 256, set_fil f (Some fil')), with_vol w v)) /\
  (bytes = [255] ->
     read junk f w = Done ((-1, set_fil f (Some fil')), with_vol w v)) /\
  (bytes = [] ->
     read junk f w = Done ((sint8 junk, set_fil f (Some fil')), with_vol w v)).
Proof.
  intros Hf Hr.
  assert (E : read junk f w
              = Done ((sint8 (match bytes with b :: _ => b | [] => junk end),
                       set_fil f (Some fil')), with_vol w v)).
  { unfold read, read_fil, bind, ret. rewrite Hf. unfold native_read.
    rewrite Hr. reflexivity. }
  split; [exact E|]. split; [|split].
  - intros b rest -> Hb. rewrite E, sint8_byte by lia.
    destruct (b <? 128) eqn:Eb; [apply Z.ltb_lt in Eb; lia|reflexivity].
  - intros ->. rewrite E. reflexivity.
  - intros ->. exact E.
Qed.

(** X19. On a handle with a file object, [read(buf, len)] returns the number
    of bytes the native read stored (for a count that fits an [int]) when
    it reports [FR_OK], and -1 otherwise; the bytes stored so far stay in
    the buffer either way. *)
Lemma read_buf_result f fil len (w : World) v fil' r bytes :
  _fil f = Some fil ->
  f_read N (vol w) fil len = (v, fil', r, bytes) ->
  Z.of_nat (List.length bytes) < 2147483648 ->
  read_buf f len w
  = Done ((if is_OK r then Z.of_nat (List.length bytes) else -1,
           bytes, set_fil f (Some fil')), with_vol w v).
Proof.
  intros Hf Hr Hlen. unfold read_buf, read_fil, bind, ret. rewrite Hf.
  unfold native_read. rewrite Hr. cbn.
  destruct (is_OK r); [|reflexivity].
  set (n := Z.of_nat (List.length bytes)) in *.
  assert (Hn : 0 <= n) by (subst n; lia).
  unfold sint32, wrap32. rewrite (Z.mod_small n) by lia.
  rewrite (Z.mod_small n) by lia.
  destruct (n <? 2147483648) eqn:E;
    [reflexivity|apply Z.ltb_ge in E; lia].
Qed.

(** C8. On an open file handle [available()] is [size() - position()] in
    [uint32_t] arithmetic, clamped to 0x7FFF: it lies in 0..0x7FFF whatever
    the position and the size, it is the true difference clamped when the
    position does not exceed the size, it is 10 for size 100 at position 90
    and 0 at position 100. *)
Theorem available_clamped f fil (w : World) :
  _fil f = Some fil ->
  exists n,
    available f w = Done (n, w) /\
    n = Z.min (wrap32 (wrap32 (fil_size fil) - wrap32 (fptr fil))) 32767 /\
    0 <= n <= 32767 /\
    (wrap32 (fptr fil) <= wrap32 (fil_size fil) ->
     n = Z.min (wrap32 (fil_size fil) - wrap32 (fptr fil)) 32767) /\
    (fil_size fil = 100 -> fptr fil = 90 -> n = 10) /\
    (fil_size fil = 100 -> fptr fil = 100 -> n = 0).
Proof.
  intros Hf. unfold available, size, position, bind, ret. rewrite Hf.
  set (n := wrap32 (wrap32 (fil_size fil) - wrap32 (fptr fil))).
  assert (Hn : 0 <= n < 4294967296) by (apply Z.mod_pos_bound; lia).
  assert (Hs : 0 <= wrap32 (fil_size fil) < 4294967296)
    by (apply Z.mod_pos_bound; lia).
  assert (Hp : 0 <= wrap32 (fptr fil) < 4294967296)
    by (apply Z.mod_pos_bound; lia).
  assert (Hv : sint32 (if n >? 32767 then 32767 else n) = Z.min n 32767).
  { unfold sint32. destruct (n >? 32767) eqn:E.
    - apply Z.gtb_lt in E. rewrite Z.min_r by lia. reflexivity.
    - assert (n <= 32767).
      { destruct (Z.le_gt_cases n 32767) as [L|L]; [exact L|].
        assert ((n >? 32767) = true) by (apply Z.gtb_lt; lia).
        congruence. }
      rewrite Z.min_l by lia. rewrite Z.mod_small by lia.
      destruct (n <? 2147483648) eqn:E2; [reflexivity|].
      apply Z.ltb_ge in E2. lia. }
  exists (Z.min n 32767). rewrite Hv.
  split; [reflexivity|]. split; [reflexivity|]. split; [lia|].
  split; [|split].
  - intros Hle. subst n. unfold wrap32 at 1. rewrite Z.mod_small by lia.
    reflexivity.
  - intros E1 E2. subst n. rewrite E1, E2. reflexivity.
  - intros E1 E2. subst n. rewrite E1, E2. reflexivity.
Qed.

(** *** The mode of the native open *)

(** the three cases of the mode [open] computes *)
Lemma open_mode_cases path mode (w : World) v r fno :
  0 <= mode < 256 -> 0 <= FA_CREATE_ALWAYS N < 256 ->
  f_stat N (vol w) path = (v, r, fno) ->
  (mode = FILE_WRITE N -> r <> FR_OK ->
   open_mode path mode w
   = Done (Z.lor mode (FA_CREATE_ALWAYS N), with_vol w v)) /\
  (mode = FILE_WRITE N -> r = FR_OK ->
   open_mode path mode w = Done (mode, with_vol w v)) /\
  (mode <> FILE_WRITE N -> open_mode path mode w = Done (mode, w)).
Proof.
  intros Hm Hc Hs. unfold open_mode. split; [|split].
  - intros E Hr. rewrite <- E, Z.eqb_refl.
    unfold exists_, bind, ret, native_stat. rewrite Hs.
    apply is_OK_false in Hr. rewrite Hr. cbn [negb].
    rewrite lor_byte by lia. reflexivity.
  - intros E ->. rewrite <- E, Z.eqb_refl.
    unfold exists_, bind, ret, native_stat. rewrite Hs. reflexivity.
  - intros E. apply Z.eqb_neq in E. rewrite E. reflexivity.
Qed.

(** C9 (as amended).  When the heap grants its two blocks, the handle [open]
    returns is built from the answer of the native file-open called with
    the mode [m] on the volume [vq], where: for a mode equal to
    [FILE_WRITE] the path is queried first and [m] is the mode with the
    create flag added exactly when the query finds no entity, the mode
    itself when it finds one; for any other mode the path is not queried
    and [m] is the mode unchanged. *)
Theorem open_mode_create_flag path mode (w : World) vs rs fno :
  0 <= mode < 256 -> 0 <= FA_CREATE_ALWAYS N < 256 ->
  grants (heap_script w) = true -> grants (tl (heap_script w)) = true ->
  f_stat N (vol w) path = (vs, rs, fno) ->
  exists m vq,
    (mode = FILE_WRITE N -> rs <> FR_OK ->
     m = Z.lor mode (FA_CREATE_ALWAYS N) /\ vq = vs) /\
    (mode = FILE_WRITE N -> rs = FR_OK -> m = mode /\ vq = vs) /\
    (mode <> FILE_WRITE N -> m = mode /\ vq = vol w) /\
    forall v3 fil r v4 d r2,
      f_open N vq path m = (v3, fil, r) ->
      f_opendir N v3 path = (v4, d, r2) ->
      exists w', open path mode w = Done (opened path fil r d r2, w') /\
                 vol w' = (if is_OK r then v3 else v4).
Proof.
  intros Hm Hc G1 G2 Hs.
  assert (Hs' : f_stat N (vol (after_malloc (after_malloc w))) path
                = (vs, rs, fno)) by exact Hs.
  destruct (open_mode_cases path (after_malloc (after_malloc w)) Hm Hc Hs')
    as (C1 & C2 & C3).
  assert (Hrun : forall m w2,
             open_mode path mode (after_malloc (after_malloc w)) = Done (m, w2) ->
             forall v3 fil r v4 d r2,
               f_open N (vol w2) path m = (v3, fil, r) ->
               f_opendir N v3 path = (v4, d, r2) ->
               exists w', open path mode w = Done (opened path fil r d r2, w') /\
                          vol w' = (if is_OK r then v3 else v4)).
  { intros m w2 Hmode v3 fil r v4 d r2 Ho Hd.
    eexists. split; [exact (open_steps path mode w G1 G2 Hmode Ho Hd)|].
    destruct (is_OK r); [reflexivity|]. destruct (is_OK r2); reflexivity. }
  destruct (Z.eq_dec mode (FILE_WRITE N)) as [E|E].
  - destruct (is_OK rs) eqn:Er.
    + apply is_OK_true in Er. exists mode, vs.
      split; [intros _ Hn; contradiction|]. split; [auto|].
      split; [intros Hn; contradiction|].
      exact (Hrun _ _ (C2 E Er)).
    + apply is_OK_false in Er. exists (Z.lor mode (FA_CREATE_ALWAYS N)), vs.
      split; [auto|]. split; [intros _ Hn; contradiction|].
      split; [intros Hn; contradiction|].
      exact (Hrun _ _ (C1 E Er)).
  - exists mode, (vol w).
    split; [intros Hn; contradiction|]. split; [intros Hn; contradiction|].
    split; [auto|].
    exact (Hrun _ _ (C3 E)).
Qed.

(** Whatever value the header gives [FILE_WRITE], one of the write modes
    [FA_WRITE] (2) and [FA_READ | FA_WRITE] (3) differs from it, and that
    mode is handed to the native open unchanged, whatever is at the path. *)
Lemma open_mode_other_write_mode path (w : World) :
  exists mode, (mode = 2 \/ mode = 3) /\ mode <> FILE_WRITE N /\
               open_mode path mode w = Done (mode, w).
Proof.
  destruct (Z.eq_dec 2 (FILE_WRITE N)) as [E|E].
  - exists 3. split; [auto|]. split; [lia|].
    unfold open_mode. rewrite <- E. reflexivity.
  - exists 2. split; [auto|]. split; [exact E|].
    unfold open_mode. apply Z.eqb_neq in E. rewrite E. reflexivity.
Qed.

(** *** name *)

(** C10. On a handle whose path holds no ['/'], [name()] returns the null
    pointer; it returns the text after the last ['/'] when there is one, and
    it returns a string only then. *)
Theorem name_needs_separator f s (w : World) :
  _name f = Some s ->
  (has_char slash s = false -> name f w = Done (None, w)) /\
  (forall pre suf, s = pre ++ String slash suf -> has_char slash suf = false ->
     name f w = Done (Some suf, w)) /\
  (forall t, name f w = Done (Some t, w) ->
     exists pre, s = pre ++ String slash t /\ has_char slash t = false).
Proof.
  intros Hn. unfold name, ret. rewrite Hn. split; [|split].
  - intros H. apply strrchr_none in H. rewrite H. reflexivity.
  - intros pre suf -> H. rewrite strrchr_last by exact H.
    rewrite Ascii.eqb_refl. reflexivity.
  - intros t H. destruct (strrchr s slash) as [r|] eqn:E; [|discriminate].
    destruct (strrchr_some _ _ E) as (pre & suf & -> & -> & Hs).
    rewrite Ascii.eqb_refl in H. injection H as <-.
    exists pre. auto.
Qed.

(** *** openNextFile *)

Lemma openNextFile_skips n : forall fuel self mode (w : World) v d v' d' r fno,
  after_dots n (vol w) (_dir self) = Some (v, d) ->
  f_readdir N v d = (v', d', r, fno) ->
  (is_OK r && negb (starts_nul (fname fno)) && starts_with dot (fname fno))
  = false ->
  (n < fuel)%nat ->
  openNextFile fuel self mode w
  = next_entry (set_dir self d') mode r fno (with_vol w v').
Proof.
  induction n as [|n IH]; intros fuel self mode w v d v' d' r fno Ha Hr Hnd Hf.
  - simpl in Ha. injection Ha as <- <-.
    destruct fuel as [|k]; [lia|]. simpl. unfold bind at 1.
    unfold native_readdir. rewrite Hr. unfold next_entry.
    destruct (is_OK r); simpl in *; [|reflexivity].
    destruct (starts_nul (fname fno)); simpl in *; [reflexivity|].
    rewrite Hnd. reflexivity.
  - simpl in Ha.
    destruct (f_readdir N (vol w) (_dir self)) as [[[v1 d1] r1] fno1] eqn:H1.
    destruct (is_OK r1 && negb (starts_nul (fname fno1))
              && starts_with dot (fname fno1)) eqn:Hdot; [|discriminate].
    apply andb_true_iff in Hdot. destruct Hdot as [Hdot D3].
    apply andb_true_iff in Hdot. destruct Hdot as [D1 D2].
    apply negb_true_iff in D2.
    destruct fuel as [|k]; [lia|]. simpl. unfold bind at 1.
    unfold native_readdir. rewrite H1. rewrite D1, D2, D3. simpl.
    rewrite (IH k (set_dir self d1) mode (with_vol w v1) v d v' d' r fno);
      try assumption; try lia; reflexivity.
Qed.

(** C6 (as amended).  On a handle with a path, once the iterator has yielded
    [n] entries whose short names ([fname]) begin with ['.'] (they are
    skipped, nothing is opened for them) and then an answer that is none of
    these: [openNextFile]
    returns an empty handle carrying the iterator's result code when that
    answer is an error or the end of the entries; otherwise it requests the
    path buffer and returns an empty handle carrying [FR_NOT_ENOUGH_CORE]
    when the request is refused, or else the handle that [open] gives for
    the child path (after which the buffer is freed), the child path being
    the directory path and the entry's listing name with one separator
    between them.  The listing name is the long name where the build keeps
    long names and the entry has one, and the short name otherwise; the dot
    test never looks at the long name. *)
Theorem openNextFile_spec n fuel self nm mode (w : World) v d v' d' r fno :
  _name self = Some nm ->
  after_dots n (vol w) (_dir self) = Some (v, d) ->
  f_readdir N v d = (v', d', r, fno) ->
  (n < fuel)%nat ->
  ((r <> FR_OK \/ starts_nul (fname fno) = true) ->
   openNextFile fuel self mode w
   = Done ((File_ r, set_dir self d'), with_vol w v') /\
   fully_empty (File_ r) /\ operator_bool (File_ r) = false /\
   _res (File_ r) = r) /\
  (r = FR_OK -> starts_nul (fname fno) = false ->
   starts_with dot (fname fno) = false ->
   (grants (heap_script w) = false ->
    openNextFile fuel self mode w
    = Done ((File_ FR_NOT_ENOUGH_CORE, set_dir self d'),
            after_malloc (with_vol w v')) /\
    fully_empty (File_ FR_NOT_ENOUGH_CORE) /\
    _res (File_ FR_NOT_ENOUGH_CORE) = FR_NOT_ENOUGH_CORE) /\
   (grants (heap_script w) = true ->
    openNextFile fuel self mode w
    = (child <- open (join_path nm (entry_name N fno)) mode ;;
       free ;;
       ret (child, set_dir self d')) (after_malloc (with_vol w v')))) /\
  (forall fn, join_path nm fn
              = if ends_with slash nm then nm ++ fn
                else nm ++ String slash fn) /\
  ((legacy_lfn N = false \/ starts_nul (lfname fno) = true) ->
   entry_name N fno = fname fno) /\
  (legacy_lfn N = true -> starts_nul (lfname fno) = false ->
   entry_name N fno = lfname fno).
Proof.
  intros Hn Ha Hr Hf. split; [|split; [|split; [|split]]].
  - intros Hend.
    assert (Hnd : (is_OK r && negb (starts_nul (fname fno))
                   && starts_with dot (fname fno)) = false).
    { destruct Hend as [E|E].
      - apply is_OK_false in E. rewrite E. reflexivity.
      - rewrite E. simpl. rewrite andb_false_r. reflexivity. }
    rewrite (@openNextFile_skips n fuel self mode w _ _ _ _ _ _ Ha Hr Hnd Hf).
    unfold next_entry.
    assert (G : negb (is_OK r) || starts_nul (fname fno) = true).
    { destruct Hend as [E|E].
      - apply is_OK_false in E. rewrite E. reflexivity.
      - rewrite E. apply orb_true_r. }
    rewrite G. repeat split.
  - intros -> Hnul Hdot.
    assert (Hnd : (is_OK FR_OK && negb (starts_nul (fname fno))
                   && starts_with dot (fname fno)) = false).
    { rewrite Hdot. apply andb_false_r. }
    rewrite (@openNextFile_skips n fuel self mode w _ _ _ _ _ _ Ha Hr Hnd Hf).
    unfold next_entry. rewrite Hnul. cbn [is_OK negb orb _name set_dir].
    rewrite Hn.
    split; intros G; unfold bind at 1; rewrite malloc_eq;
      change (heap_script (with_vol w v')) with (heap_script w); rewrite G.
    + repeat split.
    + reflexivity.
  - intros fn. apply join_path_eq.
  - unfold entry_name. intros [E|E]; rewrite E; [reflexivity|].
    destruct (legacy_lfn N); reflexivity.
  - unfold entry_name. intros E1 E2. rewrite E1, E2. reflexivity.
Qed.

(** *** ls *)

Lemma print_str_neutral s : heap_neutral (N:=N) (print_str s).
Proof. intros w a w' H. injection H as _ <-. split; reflexivity. Qed.

Lemma ret_neutral {A} (a : A) : heap_neutral (N:=N) (ret (N:=N) a).
Proof. intros w a' w' H. injection H as _ <-. split; reflexivity. Qed.

Lemma bind_neutral {A B} (c : M N A) (k : A -> M N B) :
  heap_neutral c -> (forall a, heap_neutral (N:=N) (k a)) -> heap_neutral (N:=N) (bind c k).
Proof.
  intros Hc Hk w b w' H. unfold bind in H.
  destruct (c w) as [[a w1]| | |] eqn:E; try discriminate.
  destruct (Hc _ _ _ E) as [L1 S1]. destruct (Hk a _ _ _ H) as [L2 S2].
  split; congruence.
Qed.

Lemma printFatDate_neutral x : heap_neutral (N:=N) (printFatDate x).
Proof.
  unfold printFatDate, print_num, print_char, printTwoDigits.
  repeat (apply bind_neutral; [apply print_str_neutral|intros _]).
  apply print_str_neutral.
Qed.

Lemma printFatTime_neutral x : heap_neutral (N:=N) (printFatTime x).
Proof.
  unfold printFatTime, print_char, printTwoDigits.
  repeat (apply bind_neutral; [apply print_str_neutral|intros _]).
  apply print_str_neutral.
Qed.

Lemma ls_leaf_neutral flags fno : heap_neutral (N:=N) (ls_leaf flags fno).
Proof.
  unfold ls_leaf, println, print_num, print_char.
  apply bind_neutral.
  - destruct (negb (Z.land flags LS_DATE =? 0)); [|apply ret_neutral].
    apply bind_neutral; [apply print_str_neutral|intros _].
    apply bind_neutral; [apply printFatDate_neutral|intros _].
    apply bind_neutral; [apply print_str_neutral|intros _].
    apply printFatTime_neutral.
  - intros _. apply bind_neutral; [|intros _; apply print_str_neutral].
    destruct (negb (Z.land flags LS_SIZE =? 0)); [|apply ret_neutral].
    apply bind_neutral; [apply print_str_neutral|intros _].
    apply print_str_neutral.
Qed.

Lemma indent_loop_neutral fuel : forall i indent,
  heap_neutral (N:=N) (indent_loop fuel i indent).
Proof.
  induction fuel as [|k IH]; intros i indent; simpl.
  - intros w a w' H. discriminate.
  - destruct (i <? indent); [|apply ret_neutral].
    apply bind_neutral; [apply print_str_neutral|intros _]. apply IH.
Qed.

Lemma sint8_range z : -128 <= sint8 z <= 127.
Proof.
  unfold sint8. pose proof (Z.mod_pos_bound z 256 ltac:(lia)).
  destruct (z mod 256 <? 128) eqn:E;
    [apply Z.ltb_lt in E|apply Z.ltb_ge in E]; lia.
Qed.

(** with an indent of 128 or more the counter [i] of type [int8_t] never
    reaches it: the loop does not end *)
Lemma indent_loop_diverges indent fuel : forall i (w : World),
  128 <= indent -> -128 <= i <= 127 ->
  indent_loop fuel i indent w = NoFuel.
Proof.
  induction fuel as [|k IH]; intros i w Hi Hr; simpl; [reflexivity|].
  assert (E : (i <? indent) = true) by (apply Z.ltb_lt; lia).
  rewrite E. unfold bind, print_char, print_str.
  apply IH; [lia|apply sint8_range].
Qed.


Lemma indent_loop_prints n : forall fuel i indent (w : World),
  0 <= i -> indent <= 127 -> indent - i = Z.of_nat n -> (n < fuel)%nat ->
  indent_loop fuel i indent w = Done (tt, spaces n w).
Proof.
  induction n as [|n IH]; intros fuel i indent w Hi Hm Hn Hf;
    (destruct fuel as [|k]; [lia|]); simpl.
  - assert (E : (i <? indent) = false) by (apply Z.ltb_ge; lia).
    rewrite E. reflexivity.
  - assert (E : (i <? indent) = true) by (apply Z.ltb_lt; lia).
    rewrite E. unfold bind, print_char, print_str.
    assert (S8 : sint8 (i + 1) = i + 1).
    { unfold sint8. rewrite Z.mod_small by lia.
      destruct (i + 1 <? 128) eqn:E2; [reflexivity|].
      apply Z.ltb_ge in E2. lia. }
    rewrite S8. apply IH; lia.
Qed.

(** what [open] leaves on the heap is what the handle owns; a handle that
    fails the validity test owns nothing *)
Lemma open_owned (HC : Contract N) path mode (w : World) f w' :
  open path mode w = Done (f, w') ->
  heap_live w' = heap_live w + owned f /\
  heap_script w' = tl (tl (heap_script w)) /\
  (operator_bool f = false -> released f /\ owned f = 0) /\
  (operator_bool f = true -> _name f <> None).
Proof.
  intros Ho.
  destruct (grants (heap_script w)) eqn:G1.
  2:{ rewrite open_halts in Ho by auto. discriminate. }
  destruct (grants (tl (heap_script w))) eqn:G2.
  2:{ rewrite open_halts in Ho by auto. discriminate. }
  destruct (open_granted HC path mode w G1 G2)
    as (fil & r & d & r2 & (w0 & Hopen & Hl & _ & Hs) & Bo & Bd).
  rewrite Hopen in Ho. injection Ho as <- <-.
  split; [exact Hl|]. split; [exact Hs|].
  unfold opened, operator_bool, released, owned.
  destruct (is_OK r) eqn:E1; [|destruct (is_OK r2) eqn:E2]; cbn.
  - apply is_OK_true, Bo, Z.eqb_neq in E1. rewrite E1. cbn.
    split; [discriminate|]. intros _. discriminate.
  - apply is_OK_true, Bd, Z.eqb_neq in E2. rewrite E2. cbn.
    split; [discriminate|]. intros _. discriminate.
  - split; [auto|]. discriminate.
Qed.

Lemma ls_child_closed (HC : Contract N) rec flags indent fullPath fn
      (w : World) child w' :
  keeps_handle rec ->
  ls_child rec flags indent fullPath fn w = Done (child, w') ->
  released child /\ operator_bool child = false /\
  heap_live w' = heap_live w.
Proof.
  intros Hrec H. unfold ls_child in H. unfold bind at 1 in H.
  destruct (open fullPath (FA_READ N) w) as [[c0 w1]| | |] eqn:Ho;
    try discriminate.
  destruct (open_owned HC _ _ _ Ho) as (Hl & Hs & Hfalse & Htrue).
  destruct (operator_bool c0) eqn:Eb.
  - unfold bind at 1 in H. unfold println, print_str at 1 in H.
    unfold bind in H.
    match type of H with
    | match rec ?a ?b ?c ?x with _ => _ end = _ =>
      destruct (rec a b c x) as [[c1 w2]| | |] eqn:Hr; try discriminate
    end.
    destruct (Hrec _ _ _ _ _ _ Hr) as (L2 & N2 & F2).
    cbn [heap_live] in L2.
    destruct (close_returns c1 w2) as (c2 & w3 & Hc & Hn & Hf & Hlive & _).
    rewrite Hc in H. injection H as <- <-.
    assert (Hnm : _name c1 <> None) by (rewrite N2; auto).
    split; [split; auto|]. split; [apply operator_bool_unbound, Hn|].
    assert (owned c1 = owned c0) by (unfold owned; rewrite N2, F2; reflexivity).
    rewrite (Hlive Hnm). lia.
  - destruct (Hfalse eq_refl) as [Hrel Hzero].
    unfold println_str, println, print_str, bind, ret in H.
    injection H as <- <-. cbn [heap_live].
    split; [exact Hrel|]. split; [exact Eb|]. lia.
Qed.

Lemma ls_subdir_neutral (HC : Contract N) rec flags indent self fn
      (w : World) u w' :
  keeps_handle rec ->
  ls_subdir rec flags indent self fn w = Done (u, w') ->
  heap_live w' = heap_live w.
Proof.
  intros Hrec H. unfold ls_subdir in H.
  destruct (_name self) as [nm|]; [|discriminate].
  unfold bind at 1 in H. rewrite malloc_eq in H.
  destruct (grants (heap_script w)) eqn:G.
  - unfold bind at 1 in H.
    match type of H with
    | match ?c with _ => _ end = _ =>
      destruct c as [[c1 w2]| | |] eqn:Hc; try discriminate
    end.
    destruct (ls_child_closed HC _ _ _ _ _ Hrec Hc) as (_ & _ & L).
    unfold free in H. injection H as _ <-. cbn [heap_live].
    rewrite L. unfold after_malloc. cbn [heap_live]. rewrite G. lia.
  - unfold println, print_str, bind in H. injection H as _ <-.
    unfold after_malloc. cbn [heap_live]. rewrite G. reflexivity.
Qed.

Lemma ls_unfold k flags indent self :
  ls (N:=N) (S k) flags indent self =
  ('(res, d, fno) <- native_readdir (_dir self) ;;
   let self := set_dir self d in
   if negb (is_OK res) || starts_nul (fname fno) then ret self
   else if starts_with dot (fname fno) then ls k flags indent self
   else
     indent_loop k 0 indent ;;
     print_str (entry_name N fno) ;;
     ls_entry k flags indent self fno ;;
     ls k flags indent self).
Proof. reflexivity. Qed.

(** [ls] returns with the heap as it found it and with the handle's path
    and file object untouched: every child it opened has been released *)
Lemma ls_keeps_handle (HC : Contract N) fuel : keeps_handle (N:=N) (ls fuel).
Proof.
  induction fuel as [|k IH]; intros flags indent self w self' w' H.
  - discriminate.
  - rewrite ls_unfold in H. unfold bind at 1 in H.
    unfold native_readdir in H.
    destruct (f_readdir N (vol w) (_dir self)) as [[[v d] r] fno].
    destruct (negb (is_OK r) || starts_nul (fname fno)).
    + injection H as <- <-. cbn. auto.
    + destruct (starts_with dot (fname fno)).
      * apply IH in H. cbn in H. exact H.
      * unfold bind at 1 in H.
        destruct (indent_loop k 0 indent (with_vol w v)) as [[u w1]| | |] eqn:Hi;
          try discriminate.
        destruct (indent_loop_neutral _ _ _ _ Hi) as [L1 _].
        unfold bind at 1 in H. unfold print_str at 1 in H.
        unfold bind at 1 in H.
        match type of H with
        | match ?c with _ => _ end = _ =>
          destruct c as [[u2 w2]| | |] eqn:Hmid; try discriminate
        end.
        assert (L2 : heap_live w2 = heap_live w1).
        { unfold ls_entry in Hmid.
          destruct (Z.land (fattrib fno) (AM_DIR N) =? 0).
          - apply ls_leaf_neutral in Hmid. apply Hmid.
          - destruct (negb (Z.land flags LS_R =? 0)).
            + apply (ls_subdir_neutral HC) in Hmid; [exact Hmid|exact IH].
            + injection Hmid as _ <-. reflexivity. }
        apply IH in H. cbn in H, L1.
        destruct H as (L3 & N3 & F3). repeat split; congruence.
Qed.

End Proofs.

(* ================================================================== *)
(** ** The wrapper on the volume in memory *)
(* ================================================================== *)

(** the volume in memory keeps the contract of the driver *)
Lemma Ram_contract : Contract Ram.driver.
Proof.
  constructor; cbn [f_open f_opendir f_closedir f_lseek Ram.driver].
  - intros v p m v' fil r. unfold Ram.open.
    destruct (Ram.card_present v); cbn [negb].
    2:{ intros H; injection H as <- <- <-. cbn. split; [discriminate|tauto]. }
    destruct (Ram.find_node p (Ram.nodes v) 0) as [[i [dat|es]]|];
      try destruct (Z.testbit m 3);
      intros H; injection H as <- <- <-; cbn;
        split; try discriminate; try tauto; try reflexivity.
  - intros v p v' d r. unfold Ram.opendir.
    destruct (Ram.card_present v); cbn [negb].
    2:{ intros H; injection H as <- <- <-. cbn. split; [discriminate|tauto]. }
    destruct (Ram.find_node p (Ram.nodes v) 0) as [[i [dat|es]]|];
      intros H; injection H as <- <- <-; cbn;
        split; try discriminate; try tauto; try reflexivity.
  - intros v d v' d' r. unfold Ram.closedir.
    destruct (negb (Ram.card_present v) || (dir_fs d =? 0));
      intros H; injection H as <- <- <-; [discriminate|reflexivity].
  - intros v fil ofs v' fil'. unfold Ram.lseek.
    destruct (negb (Ram.card_present v) || (fil_fs fil =? 0));
      intros H; [discriminate|]. injection H as <- <-. cbn. intros Hofs.
    assert (E : (ofs >? fil_size fil) = false).
    { destruct (ofs >? fil_size fil) eqn:E; [|reflexivity].
      apply Z.gtb_lt in E. lia. }
    rewrite E. split; reflexivity.
Qed.

Example open_a : exists w, open "/a" 1 world_abc = Done (handle_a, w).
Proof. eexists. lazy. reflexivity. Qed.

Example open_c : exists w, open "/a/b/c.txt" 1 world_abc = Done (handle_c, w).
Proof. eexists. lazy. reflexivity. Qed.

(** the listing scenario: [b] at the indent asked for, [c.txt] two further *)
Example ls_abc :
  exists f w, ls 8 LS_R 1 handle_a world_abc = Done (f, w) /\
              sink w = " b" ++ CRLF ++ "   c.txt" ++ CRLF /\
              heap_live w = heap_live world_abc.
Proof. eexists _, _. split; [lazy; reflexivity|]. split; reflexivity. Qed.

(** [open] on the directory [/a] of the volume in memory *)
Lemma open_never_half_bound_witness :
  Contract Ram.driver /\
  forall f w', open "/a" 1 world_abc = Done (f, w') ->
               dir_bound f /\ ~ half_bound f.
Proof.
  split; [exact Ram_contract|]. intros f w' H.
  destruct (proj2 (open_never_half_bound Ram_contract "/a" 1 world_abc)
                  eq_refl eq_refl)
    as (m & w2 & v3 & fil & r & v4 & d & r2 & f0 & w0 &
        Hm & Ho & Hd & Hopen & Hnh & _ & Hdir & _).
  rewrite Hopen in H. injection H as <- <-.
  injection Hm as <- <-. injection Ho as <- <- <-. injection Hd as <- <- <-.
  split; [|exact Hnh]. apply Hdir; [discriminate|reflexivity].
Defined.

(** [close] on the open directory [/a], the card in the slot *)
Lemma handle_inv_preserved_witness :
  Contract Ram.driver /\
  exists f' w', close handle_a world_abc = Done (f', w') /\ handle_inv f'.
Proof.
  split; [exact Ram_contract|].
  assert (Hinv : handle_inv handle_a).
  { split; cbn; [intros [H _]; congruence|].
    split; [discriminate|intros [_ H]; discriminate]. }
  destruct (proj2 (proj2 (handle_inv_preserved Ram_contract))
                  handle_a world_abc Hinv)
    as (f' & w' & Hc & _ & _ & _ & Hd).
  exists f', w'. split; [exact Hc|].
  refine (proj1 (proj1 (proj2 (Hd _ _ _ _ eq_refl)) eq_refl)). discriminate.
Defined.

(** C2, the claim as stated fails: a directory-bound handle satisfies the
    invariant; once the card is pulled out the native directory-close fails
    and leaves the directory object as it was; [close] still frees the
    path, so the closed handle has no path and a bound directory state. *)
Lemma close_breaks_inv_counterexample :
  Contract Ram.driver /\
  handle_inv handle_a /\ dir_bound handle_a /\
  exists f' w',
    close handle_a world_removed = Done (f', w') /\
    _name f' = None /\ dir_fs (_dir f') <> 0 /\ ~ handle_inv f'.
Proof.
  split; [exact Ram_contract|]. split; [|split].
  - split; cbn; [intros [H _]; congruence|].
    split; [discriminate|intros [_ H]; discriminate].
  - repeat split; cbn; discriminate.
  - eexists _, _. split; [lazy; reflexivity|]. cbn.
    split; [reflexivity|]. split; [discriminate|].
    intros [_ [H _]]. destruct (H eq_refl) as [_ H']. discriminate.
Qed.

(** [seek(1)] on the open file [/a/b/c.txt] of size 2 *)
Lemma seek_within_size_witness :
  Contract Ram.driver /\
  seek handle_c 1 world_abc
  = Done ((true, set_fil handle_c (Some (mkFIL 1 1 2 2))), world_abc) /\
  position (set_fil handle_c (Some (mkFIL 1 1 2 2))) world_abc
  = Done (1, world_abc).
Proof.
  split; [exact Ram_contract|].
  assert (Hle : 1 <= wrap32 (fil_size (mkFIL 1 0 2 2))) by (vm_compute; discriminate).
  destruct (proj2 (@seek_within_size Ram.driver Ram_contract handle_c
                     (mkFIL 1 0 2 2) 1 world_abc eq_refl
                     ltac:(simpl; lia) ltac:(lia))
                  Hle (vol world_abc) (mkFIL 1 1 2 2) FR_OK eq_refl)
    as [Hs Hp].
  split; [exact Hs|exact (Hp eq_refl)].
Defined.

(** C4, the claim as stated fails: position 1 lies within the size 2 of the
    open file, the card has been pulled out, the native seek reports
    [FR_INVALID_OBJECT], and [seek] returns false. *)
Lemma seek_native_failure_counterexample :
  Contract Ram.driver /\
  size handle_c world_removed = Done (2, world_removed) /\
  seek handle_c 1 world_removed = Done ((false, handle_c), world_removed).
Proof. split; [exact Ram_contract|]. split; reflexivity. Qed.

(** the first byte, 255, comes back as -1 *)
Lemma read_returns_signed_byte_witness :
  read 0 handle_f world_bytes
  = Done ((-1, set_fil handle_f (Some (mkFIL 1 1 2 0))), world_bytes).
Proof.
  exact (proj1 (proj2 (proj2
    (@read_returns_signed_byte Ram.driver 0 handle_f (mkFIL 1 0 2 0)
       world_bytes (vol world_bytes) (mkFIL 1 1 2 0) [255]
       eq_refl eq_refl))) eq_refl).
Defined.

(** the second byte, 128, comes back as -128 *)
Example read_second_byte :
  read 0 (set_fil handle_f (Some (mkFIL 1 1 2 0))) world_bytes
  = Done ((-128, set_fil handle_f (Some (mkFIL 1 2 2 0))), world_bytes).
Proof. reflexivity. Qed.

(** at the end of the file the native read succeeds without a byte, and
    [read()] returns what the local held, here 65, not -1 *)
Example read_at_eof :
  read 65 (set_fil handle_f (Some (mkFIL 1 2 2 0))) world_bytes
  = Done ((65, set_fil handle_f (Some (mkFIL 1 2 2 0))), world_bytes).
Proof. reflexivity. Qed.

(** [openNextFile] on [/d/]: three dot entries, then [x] *)
Lemma openNextFile_spec_witness :
  openNextFile 4 handle_d 1 world_dots
  = (child <- open "/d/x" 1 ;; free ;;
     ret (child, set_dir handle_d (mkDIR 1 0 4))) (after_malloc world_dots).
Proof.
  exact (proj2 (proj1 (proj2
    (@openNextFile_spec Ram.driver 3 4 handle_d "/d/" 1 world_dots
       (vol world_dots) (mkDIR 1 0 3) (vol world_dots) (mkDIR 1 0 4)
       FR_OK (entry_of "x" 32) eq_refl eq_refl eq_refl ltac:(lia)))
    eq_refl eq_refl eq_refl) eq_refl).
Defined.

(** C6, the claim as stated fails: in a build that keeps long names, the
    entry of [/L] whose name in the child path is [.dotted long] is not
    skipped, because its short name has no leading dot, and
    [/L/.dotted long] is opened. *)
Lemma openNextFile_long_dot_name_counterexample :
  f_readdir driver_lfn (vol world_lfn) (_dir handle_l)
  = (vol world_lfn, mkDIR 1 0 1, FR_OK, entry_long) /\
  starts_with dot (entry_name driver_lfn entry_long) = true /\
  exists w',
    openNextFile 1 handle_l 1 world_lfn
    = Done ((mkFile (Some "/L/.dotted long") (Some (mkFIL 1 0 7 1))
                    DIR_zero FR_OK,
             set_dir handle_l (mkDIR 1 0 1)), w').
Proof.
  split; [reflexivity|]. split; [reflexivity|].
  eexists. lazy. reflexivity.
Qed.

(** the three dot entries are passed over and [/d/x] is opened as a file *)
Example openNextFile_dots :
  exists w, openNextFile 4 handle_d 1 world_dots
            = Done ((mkFile (Some "/d/x") (Some (mkFIL 1 0 3 1)) DIR_zero FR_OK,
                     set_dir handle_d (mkDIR 1 0 4)), w)
            /\ heap_live w = 2.
Proof. eexists. split; [lazy; reflexivity|reflexivity]. Qed.

(** size 100, position 90 *)
Lemma available_clamped_witness :
  exists n, available (set_fil handle_c (Some (mkFIL 1 90 100 2))) world_abc
            = Done (n, world_abc) /\ n = 10.
Proof.
  destruct (@available_clamped Ram.driver
              (set_fil handle_c (Some (mkFIL 1 90 100 2)))
              (mkFIL 1 90 100 2) world_abc eq_refl)
    as (n & Ha & _ & _ & _ & H10 & _).
  exists n. split; [exact Ha|exact (H10 eq_refl eq_refl)].
Defined.

(** [FILE_WRITE] on a path with nothing at it: the native open is called
    with the create flag, so the file comes into being and is opened *)
Lemma open_mode_create_flag_witness :
  exists w', open "/new" 2 world_abc
             = Done (mkFile (Some "/new") (Some (mkFIL 1 0 0 3)) DIR_zero FR_OK,
                     w').
Proof.
  destruct (@open_mode_create_flag Ram.driver "/new" 2 world_abc
              (vol world_abc) FR_NO_FILE Ram.FILINFO_none
              ltac:(lia) ltac:(simpl; lia) eq_refl eq_refl eq_refl)
    as (m & vq & H1 & _ & _ & H).
  destruct (H1 eq_refl ltac:(discriminate)) as [-> ->].
  destruct (H (Ram.mkVolume (Ram.nodes Ram.volume_abc ++ [("/new", Ram.RFile [])])
                            true)
              (mkFIL 1 0 0 3) FR_OK
              (Ram.mkVolume (Ram.nodes Ram.volume_abc ++ [("/new", Ram.RFile [])])
                            true)
              DIR_zero FR_NO_PATH eq_refl eq_refl) as (w' & Ho & _).
  exists w'. exact Ho.
Defined.

(** C9, the claim as stated fails: the mode [FA_READ | FA_WRITE] carries
    write intent and nothing exists at [/new]; had the create flag been
    added the native file-open would have succeeded, but [open] hands it the
    mode unchanged, it fails, and [open] returns an empty handle. *)
Lemma open_mode_read_write_counterexample :
  Z.land 3 (FA_WRITE Ram.driver) <> 0 /\
  exists_ "/new" world_abc = Done (false, world_abc) /\
  snd (f_open Ram.driver (vol world_abc) "/new"
              (Z.lor 3 (FA_CREATE_ALWAYS Ram.driver))) = FR_OK /\
  snd (f_open Ram.driver (vol world_abc) "/new" 3) = FR_NO_FILE /\
  open "/new" 3 world_abc
  = Done (mkFile None None DIR_zero FR_NO_PATH, world_abc).
Proof. repeat split; discriminate. Qed.

(** [name()] of [/a/b/c.txt] and of [c.txt] *)
Lemma name_needs_separator_witness :
  name handle_c world_abc = Done (Some "c.txt", world_abc) /\
  name (mkFile (Some "c.txt") None DIR_zero FR_OK) world_abc
  = Done (None, world_abc).
Proof.
  split.
  - exact (proj1 (proj2 (@name_needs_separator Ram.driver handle_c
                           "/a/b/c.txt" world_abc eq_refl))
                 "/a/b" "c.txt" eq_refl eq_refl).
  - exact (proj1 (@name_needs_separator Ram.driver
                    (mkFile (Some "c.txt") None DIR_zero FR_OK)
                    "c.txt" world_abc eq_refl) eq_refl).
Defined.

(* ================================================================== *)
(** ** Further properties of the wrapper *)
(* ================================================================== *)

Lemma append_assoc (a b c : string) : ((a ++ b) ++ c = a ++ (b ++ c))%string.
Proof. induction a as [|x a IH]; simpl; [reflexivity|]. rewrite IH. reflexivity. Qed.

Lemma append_empty_r (a : string) : (a ++ "" = a)%string.
Proof. induction a as [|x a IH]; simpl; [reflexivity|]. rewrite IH. reflexivity. Qed.

Section More.

Variable N : Native.

Local Abbreviation World := (World N).

(** X1. The validity test is true exactly when the path is bound and the
    directory state or the file state is live. *)
Theorem validity_test_iff f :
  operator_bool f = true <->
  _name f <> None /\
  (dir_fs (_dir f) <> 0 \/ exists fil, _fil f = Some fil /\ fil_fs fil <> 0).
Proof.
  unfold operator_bool.
  destruct (_name f) as [nm|]; cbn [orb negb].
  2:{ split; [discriminate|]. intros [H _]. congruence. }
  destruct (dir_fs (_dir f) =? 0) eqn:Ed.
  - apply Z.eqb_eq in Ed. destruct (_fil f) as [fil|]; cbn.
    + destruct (fil_fs fil =? 0) eqn:Ef; cbn.
      * apply Z.eqb_eq in Ef. split; [discriminate|].
        intros [_ [H|(x & Hx & H)]]; [contradiction|].
        injection Hx as <-. contradiction.
      * apply Z.eqb_neq in Ef. split; [|reflexivity]. intros _.
        split; [discriminate|]. right. exists fil. auto.
    + split; [discriminate|].
      intros [_ [H|(x & Hx & _)]]; [contradiction|discriminate].
  - apply Z.eqb_neq in Ed.
    assert (E : negb (match _fil f with Some _ => false | None => true end && false
                      || match _fil f with
                         | Some fil => (fil_fs fil =? 0) && false
                         | None => false
                         end) = true).
    { destruct (_fil f); cbn; [rewrite andb_false_r|]; reflexivity. }
    cbn [orb]. rewrite E. split; [|reflexivity]. intros _.
    split; [discriminate|auto].
Qed.

(** the handle of a call of [open] that returned, and the answers behind it *)
Lemma open_done (HC : Contract N) path mode (w : World) f w' :
  open path mode w = Done (f, w') ->
  exists fil r d r2,
    f = opened path fil r d r2 /\
    (r = FR_OK <-> fil_fs fil <> 0) /\ (r2 = FR_OK <-> dir_fs d <> 0) /\
    heap_live w' = heap_live w + owned f /\ sink w' = sink w.
Proof.
  intros Ho.
  destruct (grants (heap_script w)) eqn:G1.
  2:{ rewrite open_halts in Ho by auto. discriminate. }
  destruct (grants (tl (heap_script w))) eqn:G2.
  2:{ rewrite open_halts in Ho by auto. discriminate. }
  destruct (open_granted HC path mode w G1 G2)
    as (fil & r & d & r2 & (w0 & Hopen & Hl & Hs & _) & Bo & Bd).
  rewrite Hopen in Ho. injection Ho as <- <-.
  exists fil, r, d, r2. auto.
Qed.

Lemma opened_valid_ok (HC : Contract N) path mode (w : World) f w' :
  open path mode w = Done (f, w') ->
  operator_bool f = is_OK (_res f).
Proof.
  intros Ho.
  destruct (open_done HC _ _ _ Ho) as (fil & r & d & r2 & -> & Bo & Bd & _).
  unfold opened, operator_bool.
  destruct (is_OK r) eqn:E1; [|destruct (is_OK r2) eqn:E2]; cbn.
  - rewrite E1. apply is_OK_true, Bo, Z.eqb_neq in E1. rewrite E1. reflexivity.
  - rewrite E2. apply is_OK_true, Bd, Z.eqb_neq in E2. rewrite E2. reflexivity.
  - rewrite E2. reflexivity.
Qed.

(** X2. For the handle [open] returns, the validity test is true exactly
    when the stored result code is [FR_OK]. *)
Theorem open_valid_iff_ok (HC : Contract N) path mode (w : World) f w' :
  open path mode w = Done (f, w') ->
  operator_bool f = is_OK (_res f).
Proof. intros Ho. exact (opened_valid_ok HC _ _ _ Ho). Qed.

(** a call of [open] that got its memory returns, whatever the driver does *)
Lemma open_runs path mode (w : World) :
  grants (heap_script w) = true -> grants (tl (heap_script w)) = true ->
  exists fil r d r2 w',
    open path mode w = Done (opened path fil r d r2, w') /\
    heap_live w' = heap_live w + owned (opened path fil r d r2) /\
    sink w' = sink w.
Proof.
  intros G1 G2.
  destruct (open_mode_returns path mode (after_malloc (after_malloc w)))
    as (m & w2 & Hm & Hlive & Hscript & Hsink).
  destruct (f_open N (vol w2) path m) as [[v3 fil] r] eqn:Ho.
  destruct (f_opendir N v3 path) as [[v4 d] r2] eqn:Hd.
  exists fil, r, d, r2. eexists.
  split; [exact (open_steps path mode w G1 G2 Hm Ho Hd)|].
  unfold opened, owned, after_malloc in *.
  cbn [heap_live heap_script sink] in *. rewrite G1, G2 in Hlive.
  destruct (is_OK r); [|destruct (is_OK r2)]; cbn;
    rewrite Hlive, Hsink; (split; [lia|reflexivity]).
Qed.

(** X3. [open] followed by [close] returns whenever the heap grants the two
    blocks of [open], whatever the driver answers; it leaves the heap with
    the blocks it had, the sink untouched, and a handle that owns nothing
    and fails the validity test. *)
Theorem open_then_close_balanced path mode (w : World) :
  grants (heap_script w) = true -> grants (tl (heap_script w)) = true ->
  exists f' w',
    (f <- open path mode ;; close f) w = Done (f', w') /\
    heap_live w' = heap_live w /\ sink w' = sink w /\
    released f' /\ operator_bool f' = false.
Proof.
  intros G1 G2.
  destruct (open_runs path mode w G1 G2)
    as (fil & r & d & r2 & w0 & Hopen & Hl & Hs).
  unfold bind. rewrite Hopen.
  destruct (close_returns (opened path fil r d r2) w0)
    as (f' & w' & Hc & Hn & Hf & Hlive & _ & Hsink & _).
  exists f', w'. split; [exact Hc|].
  destruct (_name (opened path fil r d r2)) as [nm|] eqn:En.
  - assert (Hnn : Some nm <> None) by discriminate.
    split; [rewrite (Hlive Hnn); lia|]. split; [congruence|].
    split; [split; auto|]. apply operator_bool_unbound, Hn.
  - rewrite close_unbound in Hc by exact En. injection Hc as <- <-.
    assert (Hz : owned (opened path fil r d r2) = 0 /\
                 _fil (opened path fil r d r2) = None).
    { unfold opened, owned in *.
      destruct (is_OK r); [discriminate|].
      destruct (is_OK r2); [discriminate|]. cbn. auto. }
    destruct Hz as [Hz Hfil].
    split; [lia|]. split; [exact Hs|]. split; [split; assumption|].
    apply operator_bool_unbound, En.
Qed.

(** X4. On the handle [open] returns, [isDirectory] never reaches the status
    query and never faults: on a valid handle it returns, without touching
    the world, whether the directory state is live, that is true on a
    directory-bound handle and false on a file-bound one; on the empty
    handle of a failed [open] it enters [Error_Handler]. *)
Theorem isDirectory_after_open (HC : Contract N) path mode (w : World) f w' :
  open path mode w = Done (f, w') ->
  (operator_bool f = true ->
   isDirectory f w' = Done (negb (dir_fs (_dir f) =? 0), w') /\
   (dir_fs (_dir f) <> 0 -> dir_bound f) /\
   (dir_fs (_dir f) = 0 -> file_bound f)) /\
  (operator_bool f = false -> isDirectory f w' = Halted).
Proof.
  intros Ho.
  destruct (open_done HC _ _ _ Ho) as (fil & r & d & r2 & -> & Bo & Bd & _).
  unfold opened, operator_bool, isDirectory, dir_bound, file_bound.
  destruct (is_OK r) eqn:E1; [|destruct (is_OK r2) eqn:E2]; cbn.
  - apply is_OK_true, Bo in E1. pose proof E1 as E1'.
    apply Z.eqb_neq in E1'. rewrite E1'. cbn. split; [|discriminate].
    intros _. split; [reflexivity|]. split; [intros H; congruence|].
    intros _. split; [discriminate|]. split; [|reflexivity].
    exists fil. auto.
  - apply is_OK_true, Bd in E2. pose proof E2 as E2'.
    apply Z.eqb_neq in E2'. rewrite E2'. cbn. split; [|discriminate].
    intros _. split; [reflexivity|]. split; [|contradiction].
    intros _. split; [discriminate|auto].
  - split; [discriminate|reflexivity].
Qed.

(** X5. After [close], [isDirectory] and [rewindDirectory] enter
    [Error_Handler], whatever the handle was. *)
Theorem use_after_close_halts f (w : World) :
  exists f' w',
    close f w = Done (f', w') /\
    isDirectory f' w' = Halted /\ rewindDirectory f' w' = Halted.
Proof.
  destruct (close_returns f w) as (f' & w' & Hc & Hn & _).
  exists f', w'. split; [exact Hc|].
  unfold rewindDirectory, bind, isDirectory. rewrite Hn. split; reflexivity.
Qed.

(** [rewindDirectory] on a handle whose directory state is live *)
Lemma rewind_steps f nm (w : World) v1 d1 r1 v2 d2 r2 :
  _name f = Some nm -> dir_fs (_dir f) <> 0 ->
  f_closedir N (vol w) (_dir f) = (v1, d1, r1) ->
  f_opendir N v1 nm = (v2, d2, r2) ->
  rewindDirectory f w = Done (set_dir f d2, with_vol w v2).
Proof.
  intros Hn Hd Hc Ho.
  assert (Ed : (dir_fs (_dir f) =? 0) = false) by (apply Z.eqb_neq; exact Hd).
  unfold rewindDirectory, isDirectory, bind, ret. rewrite Hn, Ed.
  cbn [negb]. cbv beta iota.
  unfold native_closedir. rewrite Hc. cbn [_name set_dir]. rewrite Hn.
  unfold native_opendir. cbn [vol with_vol]. rewrite Ho. reflexivity.
Qed.

(** X6. On a directory-bound handle [rewindDirectory] closes the iterator
    and reopens it at the handle's path, keeping the object the native
    directory-open filled and dropping its result code: the stored result
    is unchanged; the handle is directory-bound again when the reopen
    succeeds, and when it fails the handle keeps its path with neither state
    live and fails the validity test. *)
Theorem rewindDirectory_rebinds (HC : Contract N) f nm (w : World)
        v1 d1 r1 v2 d2 r2 :
  _name f = Some nm -> _fil f = None -> dir_fs (_dir f) <> 0 ->
  f_closedir N (vol w) (_dir f) = (v1, d1, r1) ->
  f_opendir N v1 nm = (v2, d2, r2) ->
  rewindDirectory f w = Done (set_dir f d2, with_vol w v2) /\
  _res (set_dir f d2) = _res f /\
  (r2 = FR_OK -> dir_bound (set_dir f d2)) /\
  (r2 <> FR_OK ->
   half_bound (set_dir f d2) /\ operator_bool (set_dir f d2) = false).
Proof.
  intros Hn Hf Hd Hc Ho.
  pose proof (opendir_binds HC _ _ Ho) as Bd.
  assert (Ed : (dir_fs (_dir f) =? 0) = false) by (apply Z.eqb_neq; exact Hd).
  split; [|split; [reflexivity|split]].
  - exact (rewind_steps f w Hn Hd Hc Ho).
  - intros E. apply Bd in E. unfold dir_bound. cbn. rewrite Hn, Hf.
    split; [discriminate|auto].
  - intros E.
    assert (Hz : dir_fs d2 = 0).
    { destruct (Z.eq_dec (dir_fs d2) 0) as [Z0|Z0]; [exact Z0|].
      apply Bd in Z0. contradiction. }
    split.
    + unfold half_bound. cbn. rewrite Hn, Hf.
      split; [discriminate|]. split; [discriminate|exact Hz].
    + unfold operator_bool. cbn. rewrite Hn, Hf, Hz. reflexivity.
Qed.

(** X7. When the reopen inside [rewindDirectory] fails, a following
    [isDirectory] reads the owner pointer through the null [_fil]. *)
Theorem isDirectory_after_failed_rewind (HC : Contract N) f nm (w : World)
        v1 d1 r1 v2 d2 r2 :
  _name f = Some nm -> _fil f = None -> dir_fs (_dir f) <> 0 ->
  f_closedir N (vol w) (_dir f) = (v1, d1, r1) ->
  f_opendir N v1 nm = (v2, d2, r2) ->
  r2 <> FR_OK ->
  (f' <- rewindDirectory f ;; isDirectory f') w = Fault.
Proof.
  intros Hn Hf Hd Hc Ho Hr.
  pose proof (opendir_binds HC _ _ Ho) as Bd.
  assert (Ed : (dir_fs (_dir f) =? 0) = false) by (apply Z.eqb_neq; exact Hd).
  assert (Hz : dir_fs d2 = 0).
  { destruct (Z.eq_dec (dir_fs d2) 0) as [Z0|Z0]; [exact Z0|].
    apply Bd in Z0. contradiction. }
  pose proof (rewind_steps f w Hn Hd Hc Ho) as E.
  unfold bind at 1. rewrite E. unfold isDirectory. cbn [_name _dir _fil set_dir].
  rewrite Hn, Hz, Hf. reflexivity.
Qed.

Lemma wrap32_small z : 0 <= z < 4294967296 -> wrap32 z = z.
Proof. intros H. unfold wrap32. apply Z.mod_small. exact H. Qed.

(** the steps of [peek] once the native read has answered *)
Lemma peek_steps junk f fil (w : World) v1 fil1 r bytes :
  _fil f = Some fil ->
  f_read N (vol w) fil 1 = (v1, fil1, r, bytes) ->
  peek junk f w =
  ('(_, f') <- seek (set_fil f (Some fil1)) (wrap32 (wrap32 (fptr fil1) - 1)) ;;
   ret (if is_OK r
        then sint8 (match bytes with b :: _ => b | [] => junk end)
        else -1, f')) (with_vol w v1).
Proof.
  intros Hf Hr. unfold peek. unfold bind at 1. unfold read, read_fil.
  rewrite Hf. unfold bind at 1. unfold bind at 1. unfold native_read.
  rewrite Hr. cbv beta iota. unfold ret at 1.
  destruct (is_OK r); reflexivity.
Qed.

(** X8. When the native read delivers a byte and advances the pointer by
    one, and the native seek back succeeds, [peek] returns the byte as
    [read] does and leaves [position()] where it was. *)
Theorem peek_keeps_position (HC : Contract N) junk f fil (w : World)
        v1 fil1 b v2 fil2 :
  _fil f = Some fil ->
  f_read N (vol w) fil 1 = (v1, fil1, FR_OK, [b]) ->
  fptr fil1 = fptr fil + 1 ->
  0 <= fptr fil -> fptr fil + 1 <= fil_size fil1 -> fil_size fil1 < 4294967296 ->
  f_lseek N v1 fil1 (fptr fil) = (v2, fil2, FR_OK) ->
  peek junk f w = Done ((sint8 b, set_fil f (Some fil2)), with_vol w v2) /\
  position (set_fil f (Some fil2)) (with_vol w v2)
  = Done (wrap32 (fptr fil), with_vol w v2).
Proof.
  intros Hf Hr Hp H0 Hle Hsz Hl.
  rewrite (peek_steps junk f w Hf Hr).
  assert (T : wrap32 (wrap32 (fptr fil1) - 1) = fptr fil).
  { rewrite Hp. rewrite (@wrap32_small (fptr fil + 1)) by lia.
    replace (fptr fil + 1 - 1) with (fptr fil) by lia.
    apply wrap32_small. lia. }
  rewrite T. unfold bind, seek, size, bind, ret. cbn [_fil set_fil].
  rewrite (@wrap32_small (fil_size fil1)) by lia.
  assert (G : (fptr fil >? fil_size fil1) = false).
  { destruct (fptr fil >? fil_size fil1) eqn:G; [|reflexivity].
    apply Z.gtb_lt in G. lia. }
  rewrite G. unfold native_lseek. cbn [vol with_vol]. rewrite Hl. cbn.
  split; [reflexivity|].
  destruct (lseek_moves HC _ _ Hl) as [Hq _]; [lia|].
  unfold position. cbn. rewrite Hq. reflexivity.
Qed.

(** X9. At the end of a file that is not empty (the native read succeeds
    without a byte and leaves the pointer at the size), [peek] still seeks
    to [position() - 1]: when that seek succeeds the position ends one
    below where it was, and the value returned is what the uninitialised
    local of [read] held. *)
Theorem peek_at_eof_steps_back (HC : Contract N) junk f fil (w : World)
        v1 fil1 v2 fil2 :
  _fil f = Some fil ->
  f_read N (vol w) fil 1 = (v1, fil1, FR_OK, []) ->
  fptr fil1 = fil_size fil1 ->
  0 < fil_size fil1 < 4294967296 ->
  f_lseek N v1 fil1 (fil_size fil1 - 1) = (v2, fil2, FR_OK) ->
  peek junk f w = Done ((sint8 junk, set_fil f (Some fil2)), with_vol w v2) /\
  position (set_fil f (Some fil2)) (with_vol w v2)
  = Done (fil_size fil1 - 1, with_vol w v2).
Proof.
  intros Hf Hr Hp Hsz Hl.
  rewrite (peek_steps junk f w Hf Hr).
  assert (T : wrap32 (wrap32 (fptr fil1) - 1) = fil_size fil1 - 1).
  { rewrite Hp. rewrite (@wrap32_small (fil_size fil1)) by lia.
    apply wrap32_small. lia. }
  rewrite T. unfold bind, seek, size, bind, ret. cbn [_fil set_fil].
  rewrite (@wrap32_small (fil_size fil1)) by lia.
  assert (G : (fil_size fil1 - 1 >? fil_size fil1) = false).
  { destruct (fil_size fil1 - 1 >? fil_size fil1) eqn:G; [|reflexivity].
    apply Z.gtb_lt in G. lia. }
  rewrite G. unfold native_lseek. cbn [vol with_vol]. rewrite Hl. cbn.
  split; [reflexivity|].
  destruct (lseek_moves HC _ _ Hl) as [Hq _]; [lia|].
  unfold position. cbn. rewrite Hq. rewrite wrap32_small by lia. reflexivity.
Qed.

(** X10. When the pointer is at 0 after the read of [peek] (an empty file,
    or a read that failed at the start), [position() - 1] wraps to
    0xFFFFFFFF, which [seek] turns down without a native seek: the handle
    keeps the file object the read left and [peek] returns the value of
    [read]. *)
Theorem peek_at_start_no_seek junk f fil (w : World) v1 fil1 r bytes :
  _fil f = Some fil ->
  f_read N (vol w) fil 1 = (v1, fil1, r, bytes) ->
  fptr fil1 = 0 ->
  0 <= fil_size fil1 < 4294967295 ->
  peek junk f w
  = Done ((if is_OK r
           then sint8 (match bytes with b :: _ => b | [] => junk end)
           else -1, set_fil f (Some fil1)), with_vol w v1).
Proof.
  intros Hf Hr Hp Hsz.
  rewrite (peek_steps junk f w Hf Hr).
  rewrite Hp. change (wrap32 (wrap32 0 - 1)) with 4294967295.
  unfold bind, seek, size, bind, ret. cbn [_fil set_fil].
  rewrite (@wrap32_small (fil_size fil1)) by lia.
  assert (G : (4294967295 >? fil_size fil1) = true) by (apply Z.gtb_lt; lia).
  rewrite G. destruct (is_OK r); reflexivity.
Qed.

(** X11. After a successful [seek(pos)] inside the file, [available()] is
    the number of bytes from [pos] to the end, clamped to 0x7FFF. *)
Theorem seek_then_available (HC : Contract N) f fil pos (w : World) v fil' :
  _fil f = Some fil ->
  0 <= pos <= fil_size fil -> fil_size fil < 4294967296 ->
  f_lseek N (vol w) fil pos = (v, fil', FR_OK) ->
  ('(ok, f') <- seek f pos ;; n <- available f' ;; ret (ok, n)) w
  = Done ((true, Z.min (fil_size fil - pos) 32767), with_vol w v).
Proof.
  intros Hf Hpos Hsz Hl.
  destruct (lseek_moves HC _ _ Hl Hpos) as [Hp Hs].
  unfold bind at 1. unfold seek, size, bind, ret. rewrite Hf.
  rewrite (@wrap32_small (fil_size fil)) by lia.
  assert (G : (pos >? fil_size fil) = false).
  { destruct (pos >? fil_size fil) eqn:G; [|reflexivity].
    apply Z.gtb_lt in G. lia. }
  rewrite G. unfold native_lseek. rewrite Hl. cbn [is_OK negb].
  unfold available, size, position, bind, ret. cbn [_fil set_fil].
  rewrite Hp, Hs.
  rewrite (@wrap32_small (fil_size fil)) by lia.
  rewrite (@wrap32_small pos) by lia.
  rewrite (@wrap32_small (fil_size fil - pos)) by lia.
  f_equal. f_equal. f_equal.
  unfold sint32.
  destruct (fil_size fil - pos >? 32767) eqn:E.
  - apply Z.gtb_lt in E. rewrite Z.min_r by lia. reflexivity.
  - assert (fil_size fil - pos <= 32767).
    { destruct (Z.le_gt_cases (fil_size fil - pos) 32767) as [L|L]; [exact L|].
      assert ((fil_size fil - pos >? 32767) = true) by (apply Z.gtb_lt; lia).
      congruence. }
    rewrite Z.min_l by lia. rewrite Z.mod_small by lia.
    destruct (fil_size fil - pos <? 2147483648) eqn:E2; [reflexivity|].
    apply Z.ltb_ge in E2. lia.
Qed.

(** X12. [printTwoDigits] prints two characters whose codes, taken from
    ['0'], are [v / 10] and [v mod 10]: for [v] up to 99 both are decimal
    digits and spell [v]; from 100 on the first character lies beyond
    ['9']. *)
Theorem printTwoDigits_digits v (w : World) :
  0 <= v <= 255 ->
  exists c1 c2,
    printTwoDigits v w = Done (tt, printed w (String c1 (String c2 ""))) /\
    Z.of_nat (nat_of_ascii c1) = 48 + v / 10 /\
    Z.of_nat (nat_of_ascii c2) = 48 + v mod 10 /\
    0 <= v mod 10 <= 9 /\
    (v <= 99 -> 0 <= v / 10 <= 9) /\
    (100 <= v -> 10 <= v / 10).
Proof.
  intros Hv.
  assert (Hd : 0 <= v / 10 <= 25).
  { split; [apply Z.div_pos; lia|].
    assert (v / 10 < 26) by (apply Z.div_lt_upper_bound; lia). lia. }
  assert (Hm : 0 <= v mod 10 < 10) by (apply Z.mod_pos_bound; lia).
  assert (Hc : forall z, 0 <= z < 256 ->
                         Z.of_nat (nat_of_ascii (char_of z)) = z).
  { intros z Hz. unfold char_of, wrap8. rewrite Z.mod_small by lia.
    rewrite nat_ascii_embedding by lia. lia. }
  exists (char_of (48 + v / 10)), (char_of (48 + v mod 10)).
  split; [reflexivity|]. split; [apply Hc; lia|]. split; [apply Hc; lia|].
  split; [lia|]. split.
  - intros H99. split; [lia|].
    assert (v / 10 < 10) by (apply Z.div_lt_upper_bound; lia). lia.
  - intros H100. apply Z.div_le_lower_bound; lia.
Qed.

(** *** Listings *)

(** X13. Whenever [ls] returns, at any depth of recursion, the heap holds as
    many blocks as before and the listed handle still has its path and its
    file object: every child opened on the way was released. *)
Theorem ls_returns_balanced (HC : Contract N) fuel flags indent self
        (w : World) self' w' :
  ls fuel flags indent self w = Done (self', w') ->
  heap_live w' = heap_live w /\
  _name self' = _name self /\ _fil self' = _fil self.
Proof. intros H. exact (ls_keeps_handle HC fuel _ _ _ _ H). Qed.

(** X14. With an indent of 128 or more, [ls] does not return once the
    iterator yields an entry whose name does not begin with a dot: the
    counter of the indent loop is an [int8_t] and never reaches the
    indent, whatever the fuel. *)
Theorem ls_wide_indent_diverges n : forall fuel flags indent self (w : World)
    v d v' d' fno,
  128 <= indent ->
  after_dots n (vol w) (_dir self) = Some (v, d) ->
  f_readdir N v d = (v', d', FR_OK, fno) ->
  starts_nul (fname fno) = false ->
  starts_with dot (fname fno) = false ->
  ls fuel flags indent self w = NoFuel.
Proof.
  induction n as [|n IH];
    intros fuel flags indent self w v d v' d' fno Hi Ha Hr Hnul Hdot;
    (destruct fuel as [|k]; [reflexivity|]); rewrite ls_unfold;
    unfold bind at 1; unfold native_readdir; simpl in Ha.
  - injection Ha as <- <-. rewrite Hr, Hnul, Hdot. cbn [is_OK negb orb].
    cbv beta iota. unfold bind at 1.
    rewrite indent_loop_diverges by lia. reflexivity.
  - destruct (f_readdir N (vol w) (_dir self)) as [[[v1 d1] r1] fno1] eqn:H1.
    destruct (is_OK r1 && negb (starts_nul (fname fno1))
              && starts_with dot (fname fno1)) eqn:Hd; [|discriminate].
    apply andb_true_iff in Hd. destruct Hd as [Hd D3].
    apply andb_true_iff in Hd. destruct Hd as [D1 D2].
    apply negb_true_iff in D2. rewrite D1, D2, D3. cbn [negb orb].
    cbv beta iota.
    exact (IH k flags indent (set_dir self d1) (with_vol w v1)
              v d v' d' fno Hi Ha Hr Hnul Hdot).
Qed.

Lemma printed_printed (w : World) a b :
  printed (printed w a) b = printed w (a ++ b).
Proof. unfold printed. cbn. rewrite append_assoc. reflexivity. Qed.

Lemma prints_str s : prints (N:=N) (print_str s) s.
Proof. intros w. reflexivity. Qed.

Lemma prints_nothing : prints (N:=N) (ret tt) "".
Proof.
  intros w. unfold ret, printed. rewrite append_empty_r.
  destruct w. reflexivity.
Qed.

Lemma prints_bind (c1 c2 : M N unit) s1 s2 :
  prints c1 s1 -> prints c2 s2 -> prints (c1 ;; c2) (s1 ++ s2).
Proof.
  intros H1 H2 w. unfold bind. rewrite H1, H2. rewrite printed_printed.
  reflexivity.
Qed.

Lemma printTwoDigits_prints v : prints (N:=N) (printTwoDigits v) (two_digits v).
Proof. intros w. reflexivity. Qed.

Lemma printFatDate_prints x : prints (N:=N) (printFatDate x) (date_text x).
Proof.
  unfold printFatDate, date_text, print_num, print_char.
  repeat (apply prints_bind; [first [apply prints_str
                                    |apply printTwoDigits_prints]|]).
  apply printTwoDigits_prints.
Qed.

Lemma printFatTime_prints x : prints (N:=N) (printFatTime x) (time_text x).
Proof.
  unfold printFatTime, time_text, print_char.
  repeat (apply prints_bind; [first [apply prints_str
                                    |apply printTwoDigits_prints]|]).
  apply printTwoDigits_prints.
Qed.

Lemma ls_leaf_prints flags fno :
  prints (N:=N) (ls_leaf flags fno) (leaf_text flags fno).
Proof.
  unfold ls_leaf, leaf_text, println, print_num, print_char.
  apply prints_bind.
  - destruct (negb (Z.land flags LS_DATE =? 0)); [|apply prints_nothing].
    apply prints_bind; [apply prints_str|].
    apply prints_bind; [apply printFatDate_prints|].
    apply prints_bind; [apply prints_str|]. apply printFatTime_prints.
  - apply prints_bind; [|apply prints_str].
    destruct (negb (Z.land flags LS_SIZE =? 0)); [|apply prints_nothing].
    apply prints_bind; apply prints_str.
Qed.

Lemma indent_loop_text n : forall fuel i indent (w : World),
  0 <= i -> indent <= 127 -> indent - i = Z.of_nat n -> (n < fuel)%nat ->
  indent_loop fuel i indent w = Done (tt, printed w (spaces_str n)).
Proof.
  induction n as [|n IH]; intros fuel i indent w Hi Hm Hn Hf;
    (destruct fuel as [|k]; [lia|]); simpl.
  - assert (E : (i <? indent) = false) by (apply Z.ltb_ge; lia).
    rewrite E. apply prints_nothing.
  - assert (E : (i <? indent) = true) by (apply Z.ltb_lt; lia).
    rewrite E. unfold bind, print_char, print_str.
    assert (S8 : sint8 (i + 1) = i + 1).
    { unfold sint8. rewrite Z.mod_small by lia.
      destruct (i + 1 <? 128) eqn:E2; [reflexivity|].
      apply Z.ltb_ge in E2. lia. }
    rewrite S8. rewrite (IH k (i + 1) indent) by lia.
    change (mkWorld N (vol w) (heap_live w) (heap_script w) (sink w ++ " "))
      with (printed w " ").
    rewrite printed_printed. reflexivity.
Qed.

(** a run of entries for which nothing is opened: [ls] prints them and goes
    on with the rest of the directory *)
Lemma ls_leaf_prefix flags indent es : forall fuel self (w : World) v' d',
  leaf_run N flags es -> 0 <= indent <= 127 ->
  read_run (vol w) (_dir self) es v' d' ->
  (Z.to_nat indent < fuel)%nat ->
  ls (List.length es + fuel) flags indent self w
  = ls fuel flags indent (set_dir self d')
       (printed (with_vol w v') (listing_text N flags indent es)).
Proof.
  induction es as [|e es IH]; intros fuel self w v' d' Hleaf Hind Hrun Hf;
    inversion Hrun; subst.
  - destruct self, w. unfold set_dir, printed, with_vol. cbn.
    rewrite append_empty_r. reflexivity.
  - inversion Hleaf as [|e0 es0 He Hes]; subst.
    cbn [List.length Nat.add]. rewrite ls_unfold.
    unfold bind at 1; unfold native_readdir.
    match goal with
    | H1 : f_readdir N (vol w) (_dir self) = _,
      H2 : starts_nul (fname e) = false |- _ => rewrite H1, H2
    end.
    cbn [is_OK negb orb]. cbv beta iota. cbn [listing_text].
    unfold entry_text.
    destruct (starts_with dot (fname e)) eqn:Hdot.
    + rewrite (IH fuel (set_dir self d1) (with_vol w v1) v' d');
        try assumption. reflexivity.
    + unfold bind at 1.
      rewrite (@indent_loop_text (Z.to_nat indent) (List.length es + fuel)
                                 0 indent) by lia.
      unfold bind at 1. unfold print_str at 1. unfold bind at 1.
      assert (Hmid : prints (N:=N)
                (ls_entry (List.length es + fuel) flags indent
                          (set_dir self d1) e)
                (if Z.land (fattrib e) (AM_DIR N) =? 0
                 then leaf_text flags e else "")).
      { unfold ls_entry. destruct (Z.land (fattrib e) (AM_DIR N) =? 0) eqn:Ed.
        - apply ls_leaf_prints.
        - destruct He as [He|[He|He]].
          + congruence.
          + apply Z.eqb_neq in Ed. contradiction.
          + rewrite He. cbn [Z.eqb negb]. apply prints_nothing. }
      change (ls_entry (List.length es + fuel) flags indent (set_dir self d1) e
                (mkWorld N (vol (printed (with_vol w v1)
                                         (spaces_str (Z.to_nat indent))))
                         (heap_live (printed (with_vol w v1)
                                             (spaces_str (Z.to_nat indent))))
                         (heap_script (printed (with_vol w v1)
                                               (spaces_str (Z.to_nat indent))))
                         (sink (printed (with_vol w v1)
                                        (spaces_str (Z.to_nat indent)))
                          ++ entry_name N e)))
        with (ls_entry (List.length es + fuel) flags indent (set_dir self d1) e
                (printed (printed (with_vol w v1)
                                  (spaces_str (Z.to_nat indent)))
                         (entry_name N e))).
      rewrite Hmid.
      match goal with
      | |- ls _ flags indent ?s1 ?w1 = _ =>
        rewrite (IH fuel s1 w1 v' d')
      end; try assumption.
      f_equal. unfold printed, with_vol. cbn.
      f_equal. rewrite !append_assoc. reflexivity.
Qed.

(** the end of the entries, or an error of the iterator, ends the listing *)
Lemma ls_end k flags indent self (w : World) v'' d'' r fno :
  f_readdir N (vol w) (_dir self) = (v'', d'', r, fno) ->
  (r <> FR_OK \/ starts_nul (fname fno) = true) ->
  ls (S k) flags indent self w = Done (set_dir self d'', with_vol w v'').
Proof.
  intros Hr Hend. rewrite ls_unfold. unfold bind at 1.
  unfold native_readdir. rewrite Hr.
  assert (G : negb (is_OK r) || starts_nul (fname fno) = true).
  { destruct Hend as [E|E].
    - apply is_OK_false in E. rewrite E. reflexivity.
    - rewrite E. apply orb_true_r. }
  rewrite G. reflexivity.
Qed.

(** a directory of such entries is listed to its end *)
Lemma ls_leaf_run flags indent es fuel self (w : World) v'' d'' :
  leaf_run N flags es -> 0 <= indent <= 127 ->
  read_all (vol w) (_dir self) es v'' d'' ->
  (List.length es + Z.to_nat indent + 1 < fuel)%nat ->
  ls fuel flags indent self w
  = Done (set_dir self d'',
          printed (with_vol w v'') (listing_text N flags indent es)).
Proof.
  intros Hleaf Hind (v' & d' & r & fno & Hrun & Hr & Hend) Hf.
  assert (Ef : exists k, fuel = (List.length es + S k)%nat /\
                         (Z.to_nat indent < S k)%nat).
  { exists (fuel - List.length es - 1)%nat. lia. }
  destruct Ef as (k & -> & Hk).
  rewrite (@ls_leaf_prefix flags indent es (S k) self w v' d' Hleaf Hind Hrun Hk).
  rewrite (@ls_end k flags indent _ _ v'' d'' r fno); [reflexivity| |exact Hend].
  exact Hr.
Qed.

(** X15. A listing without the recursion flag, with an indent up to 127 and
    enough fuel, over a directory whose iterator yields the entries [es] and
    then its end (or an error): [ls] returns, leaves the heap alone, and the
    sink receives, in the iterator's order and for every entry whose short
    name ([fname]) does not begin with a dot, the indent, the entry's
    listing name ([entry_name]: the long name where the build keeps long
    names and the entry has one, the short name otherwise; it may begin
    with a dot) and, unless the entry is a directory, the requested date,
    time and size and a line end; the name of a directory is followed by
    nothing, not even a line end.  An entry whose short name begins with a
    dot prints nothing. *)
Theorem ls_flat_listing flags indent es : forall fuel self (w : World)
    v' d' v'' d'' r fno,
  Z.land flags LS_R = 0 -> 0 <= indent <= 127 ->
  read_run (vol w) (_dir self) es v' d' ->
  f_readdir N v' d' = (v'', d'', r, fno) ->
  (r <> FR_OK \/ starts_nul (fname fno) = true) ->
  (List.length es + Z.to_nat indent + 1 < fuel)%nat ->
  ls fuel flags indent self w
  = Done (set_dir self d'',
          printed (with_vol w v'') (listing_text N flags indent es)).
Proof.
  intros fuel self w v' d' v'' d'' r fno Hrec Hind Hrun Hr Hend Hf.
  apply ls_leaf_run; try assumption.
  - apply Forall_forall. intros e _. right. right. exact Hrec.
  - exists v', d', r, fno. auto.
Qed.







Lemma ends_with_split c s :
  ends_with c s = true -> exists pre, s = (pre ++ String c "")%string.
Proof.
  induction s as [|a t IH]; simpl; [discriminate|].
  destruct t as [|b t'].
  - intros E. apply Ascii.eqb_eq in E. subst a. exists "". reflexivity.
  - intros E. destruct (IH E) as [pre Hp]. exists (String a pre).
    simpl. rewrite <- Hp. reflexivity.
Qed.

(** X16. For a directory whose path ends in ['/'] (the root), the recursive
    listing opens each child through a path with the separator doubled,
    where [openNextFile] builds the same child's path with a single one. *)
Theorem ls_doubles_separator rec flags indent self nm fn (w : World) :
  _name self = Some nm -> ends_with slash nm = true ->
  grants (heap_script w) = true ->
  exists pre,
    nm = pre ++ "/" /\
    ls_subdir rec flags indent self fn w
    = (_ <- ls_child rec flags indent (pre ++ "//" ++ fn) fn ;; free)
        (after_malloc w) /\
    join_path nm fn = pre ++ "/" ++ fn.
Proof.
  intros Hn He Hg. destruct (ends_with_split _ _ He) as [pre Hp].
  exists pre. split; [exact Hp|]. split.
  - unfold ls_subdir. rewrite Hn. unfold bind at 1. rewrite malloc_eq, Hg.
    rewrite Hp. rewrite append_assoc. reflexivity.
  - rewrite join_path_eq, He, Hp. rewrite append_assoc. reflexivity.
Qed.

(** *** openNextFile and the heap *)

Lemma openNextFile_step k self mode (w : World) v d r fno :
  f_readdir N (vol w) (_dir self) = (v, d, r, fno) ->
  openNextFile (S k) self mode w =
  if is_OK r && negb (starts_nul (fname fno)) && starts_with dot (fname fno)
  then openNextFile k (set_dir self d) mode (with_vol w v)
  else next_entry (set_dir self d) mode r fno (with_vol w v).
Proof.
  intros H. cbn [openNextFile]. unfold bind at 1. unfold native_readdir.
  rewrite H. unfold next_entry.
  destruct (is_OK r); cbn [negb orb andb]; [|reflexivity].
  destruct (starts_nul (fname fno)); cbn [negb orb andb]; [reflexivity|].
  destruct (starts_with dot (fname fno)); reflexivity.
Qed.

(** X17. Whenever [openNextFile] returns, the heap holds, beyond what it
    held, exactly the blocks the returned handle owns (the path buffer of
    the child was freed); the iterating handle keeps its path, its file
    object and its result code; the returned handle satisfies the state
    invariant, and owns nothing when it fails the validity test. *)
Theorem openNextFile_heap_owned (HC : Contract N) fuel :
  forall self mode (w : World) child self' w',
    openNextFile fuel self mode w = Done ((child, self'), w') ->
    heap_live w' = heap_live w + owned child /\
    _name self' = _name self /\ _fil self' = _fil self /\
    _res self' = _res self /\
    handle_inv child /\
    (operator_bool child = false -> released child).
Proof.
  induction fuel as [|k IH]; intros self mode w child self' w' H;
    [discriminate|].
  destruct (f_readdir N (vol w) (_dir self)) as [[[v d] r] fno] eqn:Hr.
  rewrite (openNextFile_step k self mode w Hr) in H.
  destruct (is_OK r && negb (starts_nul (fname fno))
            && starts_with dot (fname fno)).
  - destruct (IH _ _ _ _ _ _ H) as (L & Hn & Hf & Hres & Hinv & Hrel).
    cbn in L, Hn, Hf, Hres. auto 6.
  - unfold next_entry in H.
    destruct (negb (is_OK r) || starts_nul (fname fno)).
    + injection H as <- <- <-. cbn.
      split; [lia|]. split; [reflexivity|]. split; [reflexivity|].
      split; [reflexivity|]. split; [apply File_inv|].
      intros _. split; reflexivity.
    + cbn [_name set_dir] in H.
      destruct (_name self) as [nm|] eqn:En; [|discriminate].
      unfold bind at 1 in H. rewrite malloc_eq in H.
      destruct (grants (heap_script (with_vol w v))) eqn:G.
      * unfold bind at 1 in H.
        match type of H with
        | match ?c with _ => _ end = _ =>
          destruct c as [[c0 w2]| | |] eqn:Ho; try discriminate
        end.
        unfold bind, free, ret in H. injection H as <- <- <-.
        destruct (open_owned HC _ _ _ Ho) as (L & _ & Hfalse & _).
        unfold after_malloc in L. cbn [heap_live] in L. rewrite G in L.
        cbn in L. cbn. rewrite En.
        split; [lia|]. split; [reflexivity|]. split; [reflexivity|].
        split; [reflexivity|]. split; [eapply open_inv; eassumption|].
        intros Hb. apply Hfalse, Hb.
      * injection H as <- <- <-. unfold after_malloc.
        cbn [heap_live heap_script with_vol] in *. rewrite G. cbn.
        rewrite En.
        split; [lia|]. split; [reflexivity|]. split; [reflexivity|].
        split; [reflexivity|]. split; [apply File_inv|].
        intros _. split; reflexivity.
Qed.

(** X18. What tells the end of a directory from a failure: once the
    iterator has passed [n] dot entries and given an answer that is none,
    the handle [openNextFile] returns is invalid with the result code
    [FR_OK] exactly when that answer is the end of the entries; an iterator
    error, a refused path buffer and a child that fails to open all give an
    invalid handle with another code. *)
Theorem openNextFile_end_marker (HC : Contract N) n fuel self nm mode
        (w : World) v d v' d' r fno child self' w' :
  _name self = Some nm ->
  after_dots n (vol w) (_dir self) = Some (v, d) ->
  f_readdir N v d = (v', d', r, fno) ->
  (is_OK r && negb (starts_nul (fname fno)) && starts_with dot (fname fno))
  = false ->
  (n < fuel)%nat ->
  openNextFile fuel self mode w = Done ((child, self'), w') ->
  (operator_bool child = false /\ _res child = FR_OK
   <-> r = FR_OK /\ starts_nul (fname fno) = true).
Proof.
  intros Hn Ha Hr Hnd Hf H.
  rewrite (@openNextFile_skips N n fuel self mode w _ _ _ _ _ _ Ha Hr Hnd Hf)
    in H.
  unfold next_entry in H. cbn [_name set_dir] in H. rewrite Hn in H.
  destruct (is_OK r) eqn:Er; cbn [negb orb andb] in H, Hnd.
  2:{ injection H as <- _ _. cbn. apply is_OK_false in Er.
      split; intros [A B]; congruence. }
  apply is_OK_true in Er. subst r.
  destruct (starts_nul (fname fno)) eqn:En; cbn [negb orb andb] in H, Hnd.
  { injection H as <- _ _. cbn. split; auto. }
  unfold bind at 1 in H. rewrite malloc_eq in H.
  destruct (grants (heap_script (with_vol w v'))).
  - unfold bind at 1 in H.
    match type of H with
    | match ?c with _ => _ end = _ =>
      destruct c as [[c0 w2]| | |] eqn:Ho; try discriminate
    end.
    unfold bind, free, ret in H. injection H as <- _ _.
    pose proof (opened_valid_ok HC _ _ _ Ho) as Hv.
    split; [|intros [_ B]; discriminate].
    intros [A B]. rewrite A, B in Hv. discriminate.
  - injection H as <- _ _. cbn.
    split; intros [A B]; discriminate.
Qed.

End More.

(** *** The further properties on the volume in memory *)

(** [open] of a directory, of a file and of a missing path *)
Lemma open_valid_iff_ok_witness :
  exists f w', open "/a" 1 world_abc = Done (f, w') /\
               operator_bool f = is_OK (_res f).
Proof.
  eexists _, _. split; [lazy; reflexivity|].
  eapply (@open_valid_iff_ok Ram.driver Ram_contract "/a" 1 world_abc).
  lazy. reflexivity.
Defined.

Lemma open_then_close_balanced_witness :
  exists f' w',
    (f <- open "/a/b/c.txt" 1 ;; close f) world_abc = Done (f', w') /\
    heap_live w' = heap_live world_abc /\ sink w' = sink world_abc /\
    released f' /\ operator_bool f' = false.
Proof.
  exact (@open_then_close_balanced Ram.driver "/a/b/c.txt" 1
           world_abc eq_refl eq_refl).
Defined.

Lemma isDirectory_after_open_witness :
  exists f w', open "/a" 1 world_abc = Done (f, w') /\
               isDirectory f w' = Done (true, w').
Proof.
  eexists _, _. split; [lazy; reflexivity|].
  refine (proj1 (proj1 (@isDirectory_after_open Ram.driver Ram_contract
                          "/a" 1 world_abc _ _ _) _)).
  - lazy. reflexivity.
  - reflexivity.
Defined.

(** [/d/] after three entries were read is rewound to its first entry *)
Lemma rewindDirectory_rebinds_witness :
  rewindDirectory (set_dir handle_d (mkDIR 1 0 3)) world_dots
  = Done (handle_d, world_dots) /\ dir_bound handle_d.
Proof.
  destruct (@rewindDirectory_rebinds Ram.driver Ram_contract
              (set_dir handle_d (mkDIR 1 0 3)) "/d/" world_dots
              (vol world_dots) (mkDIR 0 0 3) FR_OK
              (vol world_dots) (mkDIR 1 0 0) FR_OK
              eq_refl eq_refl ltac:(discriminate) eq_refl eq_refl)
    as (H & _ & Hb & _).
  split; [exact H|exact (Hb eq_refl)].
Defined.

(** with the card pulled out the reopen fails and [isDirectory] faults *)
Lemma isDirectory_after_failed_rewind_witness :
  (f' <- rewindDirectory handle_d ;; isDirectory f') world_dots_removed = Fault.
Proof.
  exact (@isDirectory_after_failed_rewind Ram.driver Ram_contract
           handle_d "/d/" world_dots_removed
           (vol world_dots_removed) (mkDIR 1 0 0) FR_INVALID_OBJECT
           (vol world_dots_removed) DIR_zero FR_NOT_READY
           eq_refl eq_refl ltac:(discriminate) eq_refl eq_refl
           ltac:(discriminate)).
Defined.

(** [peek] at the start of [/f] *)
Lemma peek_keeps_position_witness :
  peek 0 handle_f world_bytes = Done ((-1, handle_f), world_bytes) /\
  position handle_f world_bytes = Done (0, world_bytes).
Proof.
  exact (@peek_keeps_position Ram.driver Ram_contract 0 handle_f
           (mkFIL 1 0 2 0) world_bytes (vol world_bytes) (mkFIL 1 1 2 0) 255
           (vol world_bytes) (mkFIL 1 0 2 0)
           eq_refl eq_refl eq_refl ltac:(simpl; lia) ltac:(simpl; lia)
           ltac:(simpl; lia) eq_refl).
Defined.

(** [peek] at the end of [/f]: the position goes from 2 to 1 *)
Lemma peek_at_eof_steps_back_witness :
  peek 65 (set_fil handle_f (Some (mkFIL 1 2 2 0))) world_bytes
  = Done ((65, set_fil handle_f (Some (mkFIL 1 1 2 0))), world_bytes) /\
  position (set_fil handle_f (Some (mkFIL 1 1 2 0))) world_bytes
  = Done (1, world_bytes).
Proof.
  exact (@peek_at_eof_steps_back Ram.driver Ram_contract 65
           (set_fil handle_f (Some (mkFIL 1 2 2 0)))
           (mkFIL 1 2 2 0) world_bytes (vol world_bytes) (mkFIL 1 2 2 0)
           (vol world_bytes) (mkFIL 1 1 2 0)
           eq_refl eq_refl eq_refl ltac:(simpl; lia) eq_refl).
Defined.

(** [peek] on the empty file [/e] *)
Lemma peek_at_start_no_seek_witness :
  peek 65 handle_e world_empty_file
  = Done ((65, handle_e), world_empty_file).
Proof.
  exact (@peek_at_start_no_seek Ram.driver 65 handle_e (mkFIL 1 0 0 0)
           world_empty_file (vol world_empty_file) (mkFIL 1 0 0 0) FR_OK []
           eq_refl eq_refl eq_refl ltac:(simpl; lia)).
Defined.

(** after [seek(1)] one byte of [/a/b/c.txt] is available *)
Lemma seek_then_available_witness :
  ('(ok, f') <- seek handle_c 1 ;; n <- available f' ;; ret (ok, n)) world_abc
  = Done ((true, 1), world_abc).
Proof.
  exact (@seek_then_available Ram.driver Ram_contract handle_c
           (mkFIL 1 0 2 2) 1 world_abc (vol world_abc) (mkFIL 1 1 2 2)
           eq_refl ltac:(simpl; lia) ltac:(simpl; lia) eq_refl).
Defined.

(** 42 is printed as the characters of codes 52 and 50 *)
Lemma printTwoDigits_digits_witness :
  exists c1 c2,
    printTwoDigits 42 world_abc
    = Done (tt, printed world_abc (String c1 (String c2 ""))) /\
    Z.of_nat (nat_of_ascii c1) = 52 /\ Z.of_nat (nat_of_ascii c2) = 50.
Proof.
  destruct (@printTwoDigits_digits Ram.driver 42 world_abc ltac:(lia))
    as (c1 & c2 & H & H1 & H2 & _).
  exists c1, c2. split; [exact H|]. split; [exact H1|exact H2].
Defined.

(** the recursive listing of [/a] *)
Lemma ls_returns_balanced_witness :
  exists self' w',
    ls 8 LS_R 1 handle_a world_abc = Done (self', w') /\
    heap_live w' = heap_live world_abc /\
    _name self' = _name handle_a /\ _fil self' = _fil handle_a.
Proof.
  eexists _, _. split; [lazy; reflexivity|].
  eapply (@ls_returns_balanced Ram.driver Ram_contract 8 LS_R 1 handle_a
            world_abc).
  lazy. reflexivity.
Defined.

(** the listing of [/a] with an indent of 200 *)
Lemma ls_wide_indent_diverges_witness :
  ls 1000 LS_R 200 handle_a world_abc = NoFuel.
Proof.
  exact (@ls_wide_indent_diverges Ram.driver 0 1000 LS_R 200 handle_a
           world_abc (vol world_abc) (mkDIR 1 0 0) (vol world_abc)
           (mkDIR 1 0 1) Ram.entry_b ltac:(lia) eq_refl eq_refl
           eq_refl eq_refl).
Defined.


(** the listing of [/m] with sizes, at indent 2 *)
Lemma ls_flat_listing_witness :
  ls 8 LS_SIZE 2 handle_m world_mixed
  = Done (set_dir handle_m (mkDIR 1 0 4),
          printed world_mixed
                  ("  f1 7" ++ CRLF ++ "  sub" ++ "  f2 12" ++ CRLF)).
Proof.
  refine (@ls_flat_listing Ram.driver LS_SIZE 2
            [entry_of ".x" 32; mkFILINFO "f1" "" 32 7 0 0;
             entry_of "sub" 16; mkFILINFO "f2" "" 32 12 0 0]
            8%nat handle_m world_mixed (vol world_mixed) (mkDIR 1 0 4)
            (vol world_mixed) (mkDIR 1 0 4) FR_OK Ram.FILINFO_none
            eq_refl ltac:(lia) _ eq_refl (or_intror eq_refl) _).
  - apply (@run_cons Ram.driver _ _ _ (vol world_mixed) (mkDIR 1 0 1));
      [reflexivity|reflexivity|].
    apply (@run_cons Ram.driver _ _ _ (vol world_mixed) (mkDIR 1 0 2));
      [reflexivity|reflexivity|].
    apply (@run_cons Ram.driver _ _ _ (vol world_mixed) (mkDIR 1 0 3));
      [reflexivity|reflexivity|].
    apply (@run_cons Ram.driver _ _ _ (vol world_mixed) (mkDIR 1 0 4));
      [reflexivity|reflexivity|].
    apply run_nil.
  - simpl. lia.
Defined.

(** the children of [/d/] in a recursive listing *)
Lemma ls_doubles_separator_witness :
  exists pre,
    "/d/" = pre ++ "/" /\
    ls_subdir (ls 3) LS_R 0 handle_d "x" world_dots
    = (_ <- ls_child (ls 3) LS_R 0 (pre ++ "//" ++ "x") "x" ;; free)
        (after_malloc world_dots) /\
    join_path "/d/" "x" = pre ++ "/" ++ "x".
Proof.
  exact (@ls_doubles_separator Ram.driver (ls 3) LS_R 0 handle_d "/d/" "x"
           world_dots eq_refl eq_refl eq_refl).
Defined.

(** [openNextFile] on [/d/] returns the file [/d/x], which owns two blocks *)
Lemma openNextFile_heap_owned_witness :
  exists child self' w',
    openNextFile 4 handle_d 1 world_dots = Done ((child, self'), w') /\
    heap_live w' = heap_live world_dots + owned child /\ owned child = 2.
Proof.
  eexists _, _, _. split; [lazy; reflexivity|]. split; [|reflexivity].
  eapply (@openNextFile_heap_owned Ram.driver Ram_contract 4 handle_d 1
            world_dots).
  lazy. reflexivity.
Defined.

(** both bytes of [/f] read into a buffer *)
Lemma read_buf_result_witness :
  read_buf handle_f 2 world_bytes
  = Done ((2, [255; 128], set_fil handle_f (Some (mkFIL 1 2 2 0))), world_bytes).
Proof.
  exact (@read_buf_result Ram.driver handle_f (mkFIL 1 0 2 0) 2 world_bytes
           (vol world_bytes) (mkFIL 1 2 2 0) FR_OK [255; 128]
           eq_refl eq_refl ltac:(simpl; lia)).
Defined.

(** at the end of [/m/sub], an empty directory, the handle is invalid with
    [FR_OK] *)
Lemma openNextFile_end_marker_witness :
  exists child self' w',
    openNextFile 1 (mkFile (Some "/m/sub") None (mkDIR 1 1 0) FR_OK) 1
                 world_mixed = Done ((child, self'), w') /\
    operator_bool child = false /\ _res child = FR_OK.
Proof.
  eexists _, _, _. split; [lazy; reflexivity|].
  refine (proj2 (@openNextFile_end_marker Ram.driver Ram_contract 0 1
                   (mkFile (Some "/m/sub") None (mkDIR 1 1 0) FR_OK)
                   "/m/sub" 1 world_mixed (vol world_mixed) (mkDIR 1 1 0)
                   (vol world_mixed) (mkDIR 1 1 0) FR_OK Ram.FILINFO_none
                   _ _ _ eq_refl eq_refl eq_refl eq_refl ltac:(lia) _)
                (conj eq_refl eq_refl)).
  lazy. reflexivity.
Defined.
